(** * kong_pdk.server: the plugin server coordinator

    A shallow embedding of [src/kong_pdk/server.py] and the properties of
    its instance table, continuation table and expiry sweeper.

    Modelling choices.
    - The [PluginServer] object is a record; every method is a function in
      a state monad over it.  A method call ends in one of three ways: it
      returns a value, it raises an exception, or it blocks for ever
      (a semaphore that is never released, a channel nobody serves).
      Mutations made before a raise are kept, as in Python.
    - Every method also produces the list of the effects it performed, in
      program order: lock operations, channel I/O, close hooks, launches of
      workers and log lines.
    - Python dictionaries used as tables are [gmap]s; the dictionaries the
      methods return are [PDict] values; the dictionaries they receive are
      records carrying the fields of the RPC surface.
    - [time.time()] reads a clock kept in the state; a timestamp is an
      integer number of ticks.
    - One call of the coordinator runs without interleaving: the worker on
      the other end of a channel answers at once or never. *)

From stdpp Require Import gmap strings list fin_maps pretty sorting.
From Stdlib Require Import ZArith Lia Ascii.

Local Open Scope string_scope.
Local Open Scope Z_scope.
Local Open Scope list_scope.

(** ** Python values *)

#[local] Set Warnings "-register-all".
Local Unset Elimination Schemes.
Inductive pyval :=
| PNone
| PBool (b : bool)
| PInt (z : Z)
| PTime (t : Z)
| PStr (s : string)
| PList (l : list pyval)
| PDict (d : list (string * pyval)).
Local Set Elimination Schemes.

(** [d[k]] on a dictionary result, by first match. *)
Fixpoint assoc (k : string) (d : list (string * pyval)) : option pyval :=
  match d with
  | [] => None
  | (k', v) :: d' => if String.eqb k k' then Some v else assoc k d'
  end.

Definition py_get (k : string) (v : pyval) : option pyval :=
  match v with
  | PDict d => assoc k d
  | _ => None
  end.

(** [MSG_RET = 'ret'] *)
Definition MSG_RET : pyval := PStr "ret".

(** [v == MSG_RET]: only a string compares equal to a string. *)
Definition is_MSG_RET (v : pyval) : bool :=
  match v with
  | PStr s => String.eqb s "ret"
  | _ => false
  end.

(** [entities = ('service', 'consumer', ...)] *)
Definition entities : list string :=
  [ "service"; "consumer"; "route"; "plugin"; "credential"; "memory_stats" ].

(** ** Exceptions and the three ways a call ends *)

Inductive exn :=
| PluginServerException (msg : string)
| TypeError (msg : string)
| ValueError (msg : string)
| KeyError (key : string)
| AttributeError (attr : string)
| JSONDecodeError
| PluginError (msg : string).

Inductive outcome (A : Type) :=
| Return (a : A)
| Raise (e : exn)
| Block.
Arguments Return {A} a.
Arguments Raise {A} e.
Arguments Block {A}.

(** ** The [%] operator on strings

    [fmt % args] with the conversions the server uses, [%s] and [%d];
    [%%] is a literal percent sign.  An argument left over once the format
    is exhausted is a [TypeError], as is a missing one. *)

Inductive fmtarg :=
| FStr (s : string)
| FInt (z : Z).

Definition py_str (a : fmtarg) : string :=
  match a with
  | FStr s => s
  | FInt z => pretty z
  end.

Definition convert (c : ascii) (a : fmtarg) : exn + string :=
  if Ascii.eqb c "s" then inr (py_str a)
  else if Ascii.eqb c "d" then
    match a with
    | FInt z => inr (pretty z)
    | FStr _ => inl (TypeError "%d format: a number is required, not str")
    end
  else inl (ValueError "unsupported format character").

Fixpoint py_format (fmt : string) (args : list fmtarg) : exn + string :=
  match fmt with
  | EmptyString =>
      match args with
      | [] => inr ""
      | _ :: _ => inl (TypeError "not all arguments converted during string formatting")
      end
  | String c rest =>
      if Ascii.eqb c "%" then
        match rest with
        | EmptyString => inl (ValueError "incomplete format")
        | String k rest' =>
            if Ascii.eqb k "%" then
              match py_format rest' args with
              | inr s => inr (String "%" s)
              | inl e => inl e
              end
            else
              match args with
              | [] => inl (TypeError "not enough arguments for format string")
              | a :: args' =>
                  match convert k a with
                  | inl e => inl e
                  | inr piece =>
                      match py_format rest' args' with
                      | inr s => inr (piece +:+ s)
                      | inl e => inl e
                      end
                  end
              end
        end
      else
        match py_format rest args with
        | inr s => inr (String c s)
        | inl e => inl e
        end
  end.

(** ** Phase handlers and channels

    A phase handler, seen from the channel it is bound to: it returns, it
    raises, or it makes an outward call and waits for the two-slot result
    before going on. *)

Inductive handler :=
| HReturn
| HRaise (e : exn)
| HCall (call : pyval) (k : pyval * pyval → handler).

(** The state of a duplex channel, as its coordinator end observes it. *)
Inductive chan_state :=
| NoWorker
| Running (h : handler)
| Awaiting (k : pyval * pyval → handler)
| Finished.

(** [_handler_event_func(cls_phase, ch)]: the next item the worker puts on
    its channel while running [cls_phase].  When the handler returns, the
    worker puts [MSG_RET]; when it raises, line 44 is never reached and
    nothing is put. *)
Definition _handler_event_func (cls_phase : handler) : option (pyval * chan_state) :=
  match cls_phase with
  | HCall call k => Some (call, Awaiting k)
  | HReturn => Some (MSG_RET, Finished)
  | HRaise _ => None
  end.

(** ** Plugin definitions and instances (kong_pdk.module) *)

Module Instance.

(** Modelled from the spec: the [Instance] class of [kong_pdk/module.py]
    is not part of the sources at hand.  Section 3 of the specification
    gives a PluginInstance a definition name, a decoded configuration, a
    creation time and a last-active time; [server.py] reads the
    attributes [name], [config], [start_time] and [cls] and calls
    [close_cb], [reset_expire_ts] and [is_expired].  [cls] is the plugin
    object; [getattr(cls, phase)] is a lookup in its phase handlers.
    [close_cb] is the close hook, which section 4.2 lets run arbitrary
    cleanup: it completes, or it raises the exception recorded here. *)
Record t := mk {
  name : string;
  config : pyval;
  start_time : Z;
  last_used_time : Z;
  cls : string → option handler;
  close_cb : option exn
}.

(** Modelled from the spec: [reset_expire_ts] of the missing [Instance]
    class; "last-active refreshed on every event touching it". *)
Definition reset_expire_ts (now : Z) (i : t) : t :=
  mk (name i) (config i) (start_time i) now (cls i) (close_cb i).

(** Modelled from the spec: [is_expired] of the missing [Instance] class;
    the sweeper "evicts any instance whose idle duration exceeds the
    ttl". *)
Definition is_expired (ttl now : Z) (i : t) : bool :=
  Z.ltb ttl (now - last_used_time i).

(** Modelled from the spec: [ins['name']] on the missing [Instance]
    class.  An instance is a plain object with attributes (section 9
    calls the subscript access of [close_instance] a defect), so
    subscripting it is a [TypeError]. *)
Definition getitem (i : t) (key : string) : exn + pyval :=
  inl (TypeError "'Instance' object is not subscriptable").

End Instance.

Module Mod.

(** Modelled from the spec: the [Module] class of [kong_pdk/module.py] is
    not part of the sources at hand.  Section 3 of the specification
    lists the fields of a PluginDefinition; [server.py] reads [mtime],
    [load_time], [phases], [priority], [schema] and the two
    last-instance timestamps.  [cls] is the instantiation hook: given a
    decoded configuration it yields the phase handlers of a new plugin
    object, or raises.  [close_cb] is the close hook the definition gives
    its instances: it completes, or it raises the exception recorded. *)
Record t := mk {
  name : string;
  mtime : Z;
  load_time : Z;
  phases : pyval;
  priority : pyval;
  schema : pyval;
  last_start_instance_time : Z;
  last_close_instance_time : Z;
  cls : pyval → exn + (string → option handler);
  close_cb : option exn
}.

Definition set_last_start_instance_time (now : Z) (p : t) : t :=
  mk (name p) (mtime p) (load_time p) (phases p) (priority p) (schema p)
     now (last_close_instance_time p) (cls p) (close_cb p).

Definition set_last_close_instance_time (now : Z) (p : t) : t :=
  mk (name p) (mtime p) (load_time p) (phases p) (priority p) (schema p)
     (last_start_instance_time p) now (cls p) (close_cb p).

End Mod.

(** ** The server object and the process around it *)

Inductive lock := I_lock | E_lock.

#[global] Instance lock_eq_dec : EqDecision lock.
Proof. solve_decision. Defined.

Inductive level := Debug | Info.

Inductive action :=
| Acquire (l : lock)
| Release (l : lock)
| Send (ch : nat) (item : pyval * pyval)
| Recv (ch : nat)
| Spawn (ch : nat) (pooled : bool)
| CloseCb (iid : Z)
| Log (lv : level) (msg : string).

Record PluginServer := mkServer {
  (* attributes set by __init__ *)
  plugins : gmap string Mod.t;
  instances : gmap Z Instance.t;
  instance_id : Z;
  i_lock : nat;                  (* value of the semaphore: 0 when held *)
  events : gmap Z nat;           (* event id to channel *)
  event_id : Z;
  e_lock : nat;
  multiprocess : bool;
  (* the process around the object *)
  channels : list chan_state;    (* the channels created so far *)
  now : Z                        (* what time.time() reads *)
}.

Definition set_plugins (f : gmap string Mod.t → gmap string Mod.t) (s : PluginServer) :=
  mkServer (f (plugins s)) (instances s) (instance_id s) (i_lock s) (events s)
           (event_id s) (e_lock s) (multiprocess s) (channels s) (now s).
Definition set_instances (f : gmap Z Instance.t → gmap Z Instance.t) (s : PluginServer) :=
  mkServer (plugins s) (f (instances s)) (instance_id s) (i_lock s) (events s)
           (event_id s) (e_lock s) (multiprocess s) (channels s) (now s).
Definition set_instance_id (n : Z) (s : PluginServer) :=
  mkServer (plugins s) (instances s) n (i_lock s) (events s)
           (event_id s) (e_lock s) (multiprocess s) (channels s) (now s).
Definition set_events (f : gmap Z nat → gmap Z nat) (s : PluginServer) :=
  mkServer (plugins s) (instances s) (instance_id s) (i_lock s) (f (events s))
           (event_id s) (e_lock s) (multiprocess s) (channels s) (now s).
Definition set_event_id (n : Z) (s : PluginServer) :=
  mkServer (plugins s) (instances s) (instance_id s) (i_lock s) (events s)
           n (e_lock s) (multiprocess s) (channels s) (now s).
Definition set_channels (f : list chan_state → list chan_state) (s : PluginServer) :=
  mkServer (plugins s) (instances s) (instance_id s) (i_lock s) (events s)
           (event_id s) (e_lock s) (multiprocess s) (f (channels s)) (now s).
Definition set_now (t : Z) (s : PluginServer) :=
  mkServer (plugins s) (instances s) (instance_id s) (i_lock s) (events s)
           (event_id s) (e_lock s) (multiprocess s) (channels s) t.

Definition lock_value (l : lock) (s : PluginServer) : nat :=
  match l with
  | I_lock => i_lock s
  | E_lock => e_lock s
  end.

Definition set_lock (l : lock) (n : nat) (s : PluginServer) :=
  match l with
  | I_lock =>
      mkServer (plugins s) (instances s) (instance_id s) n (events s)
               (event_id s) (e_lock s) (multiprocess s) (channels s) (now s)
  | E_lock =>
      mkServer (plugins s) (instances s) (instance_id s) (i_lock s) (events s)
               (event_id s) n (multiprocess s) (channels s) (now s)
  end.

(** [PluginServer.__init__] once the plugin directory has been scanned:
    [loaded] is what [_load_plugins] left in [self.plugins]. *)
Definition __init__ (loaded : gmap string Mod.t) (multiprocess : bool) (t0 : Z) : PluginServer :=
  mkServer loaded ∅ 0 1%nat ∅ 0 1%nat multiprocess [] t0.

(** ** The monad of method bodies *)

Definition M (A : Type) : Type :=
  PluginServer → outcome A * PluginServer * list action.

Definition ret {A} (a : A) : M A := λ s, (Return a, s, []).

Definition bind {A B} (m : M A) (f : A → M B) : M B := λ s,
  match m s with
  | (Return a, s1, t1) =>
      match f a s1 with
      | (o, s2, t2) => (o, s2, t1 ++ t2)
      end
  | (Raise e, s1, t1) => (Raise e, s1, t1)
  | (Block, s1, t1) => (Block, s1, t1)
  end.

Notation "'let*' x ':=' c 'in' k" := (bind c (λ x, k))
  (at level 10, x name, c at level 100, k at level 200).
Notation "c >> k" := (bind c (λ _, k))
  (at level 100, k at level 200, right associativity).

Definition raise {A} (e : exn) : M A := λ s, (Raise e, s, []).
Definition block {A} : M A := λ s, (Block, s, []).
Definition get : M PluginServer := λ s, (Return s, s, []).
Definition modify (f : PluginServer → PluginServer) : M unit := λ s, (Return tt, f s, []).
Definition emit (a : action) : M unit := λ s, (Return tt, s, [a]).

(** [try: m  except Exception as ex: h ex] *)
Definition try_except {A} (m : M A) (h : exn → M A) : M A := λ s,
  match m s with
  | (Raise ex, s1, t1) =>
      match h ex s1 with
      | (o, s2, t2) => (o, s2, t1 ++ t2)
      end
  | r => r
  end.

Fixpoint for_each {A} (l : list A) (body : A → M unit) : M unit :=
  match l with
  | [] => ret tt
  | x :: l' => body x >> for_each l' body
  end.

(** The value of [fmt % args], or the exception the operator raises. *)
Definition format (fmt : string) (args : list fmtarg) : M string :=
  match py_format fmt args with
  | inr s => ret s
  | inl e => raise e
  end.

(** [lock.acquire()] blocks while the semaphore is at zero. *)
Definition acquire (l : lock) : M unit :=
  let* s := get in
  match lock_value l s with
  | O => emit (Acquire l) >> block
  | S n => emit (Acquire l) >> modify (set_lock l n)
  end.

Definition release (l : lock) : M unit :=
  let* s := get in
  emit (Release l) >> modify (set_lock l (S (lock_value l s))).

(** [time.time()] *)
Definition time_time : M Z := let* s := get in ret (now s).

(** [locked_by(lock_name)(fn)] *)
Definition locked_by (lock_name : lock) {A} (fn : M A) : M A :=
  acquire lock_name >>
  let* r := try_except fn (λ ex, release lock_name >> raise ex) in
  release lock_name >>
  ret r.

(** ** Collaborators of the server *)

(** [json.loads] on a string: the decoded value, or nothing when the
    payload is malformed (the library then raises [JSONDecodeError]). *)
Class JsonDecoder := json_loads : string → option pyval.

Definition loads `{JsonDecoder} (raw : string) : M pyval :=
  match json_loads raw with
  | Some v => ret v
  | None => raise JSONDecodeError
  end.

(** [self.logger.debug(msg)] and [self.logger.info(msg)] *)
Definition logger_debug (msg : string) : M unit := emit (Log Debug msg).
Definition logger_info (msg : string) : M unit := emit (Log Info msg).

(** Modelled from the spec: [Module.new(config)] of the missing
    [kong_pdk/module.py].  It stamps the definition's last-instance-start
    time, runs the instantiation hook and yields an instance created now
    and not active yet, its last-active time 0 until a first event sets
    it, closed by the close hook of its definition.  The definition is the
    object stored in [self.plugins], so the stamp shows there, also when
    the hook then raises. *)
Definition new (plugin_name : string) (plugin : Mod.t) (config : pyval) : M Instance.t :=
  let* t := time_time in
  modify (set_plugins (alter (Mod.set_last_start_instance_time t) plugin_name)) >>
  match Mod.cls plugin config with
  | inl e => raise e
  | inr obj => ret (Instance.mk (Mod.name plugin) config t 0 obj (Mod.close_cb plugin))
  end.

(** Modelled from the spec: the close hook [ins.close_cb] of the missing
    [Instance] class.  A hook that completes stamps the
    last-instance-close time of the instance's definition; a hook whose
    cleanup fails raises. *)
Definition close_cb (iid : Z) (ins : Instance.t) : M unit :=
  emit (CloseCb iid) >>
  match Instance.close_cb ins with
  | Some e => raise e
  | None =>
      let* t := time_time in
      modify (set_plugins
                (alter (Mod.set_last_close_instance_time t) (Instance.name ins)))
  end.

(** [instance.reset_expire_ts()] on the instance object stored under [iid]. *)
Definition reset_expire_ts (iid : Z) : M unit :=
  let* t := time_time in
  modify (set_instances (alter (Instance.reset_expire_ts t) iid)).

(** [ins[key]] *)
Definition getitem (ins : Instance.t) (key : string) : M pyval :=
  match Instance.getitem ins key with
  | inr v => ret v
  | inl e => raise e
  end.

(** A fresh duplex channel, with no worker behind it yet. *)
Definition new_channel : M nat :=
  let* s := get in
  modify (set_channels (λ chs, chs ++ [NoWorker])) >>
  ret (length (channels s)).

(** [ch, child_ch = multiprocessing.Pipe(duplex=True)]: the coordinator's
    end stands for the pipe. *)
Definition Pipe : M nat := new_channel.

(** [ch = Channel()] *)
Definition Channel : M nat := new_channel.

(** [getattr(cls, phase)] *)
Definition getattr (cls : string → option handler) (phase : string) : M handler :=
  match cls phase with
  | Some cls_phase => ret cls_phase
  | None => raise (AttributeError phase)
  end.

(** A worker starts running [_handler_event_func(cls_phase, ch)]. *)
Definition start_worker (pooled : bool) (ch : nat) (cls_phase : handler) : M unit :=
  emit (Spawn ch pooled) >>
  modify (set_channels (<[ch := Running cls_phase]>)).

(** [self._process_pool.apply_async(_handler_event_func, (cls_phase, child_ch))],
    with a process of the pool idle: the task starts at once.  A pool
    whose processes all wait inside earlier handlers only queues the
    task; the model has no bound on the pool and does not cover that. *)
Definition apply_async (child_ch : nat) (cls_phase : handler) : M unit :=
  start_worker true child_ch cls_phase.

(** [gspawn(_handler_event_func, cls_phase, ch)] *)
Definition gspawn (ch : nat) (cls_phase : handler) : M unit :=
  start_worker false ch cls_phase.

(** [ch.put(item)]: the item reaches a worker that waits for it.  With
    no worker waiting, a [Channel] put never returns, while a pipe takes
    the item and the sender goes on. *)
Definition chan_put (ch : nat) (item : pyval * pyval) : M unit :=
  emit (Send ch item) >>
  let* s := get in
  match channels s !! ch with
  | Some (Awaiting k) => modify (set_channels (<[ch := Running (k item)]>))
  | _ => if multiprocess s then ret tt else block
  end.

(** [ch.get()]: the next item the worker puts, if it ever puts one. *)
Definition chan_get (ch : nat) : M pyval :=
  emit (Recv ch) >>
  let* s := get in
  match channels s !! ch with
  | Some (Running h) =>
      match _handler_event_func h with
      | Some (item, st) => modify (set_channels (<[ch := st]>)) >> ret item
      | None => block
      end
  | _ => block
  end.

(** ** The dictionaries the methods receive *)

Record start_cfg := { Name : string; Config : string }.
Record event := { InstanceId : Z; EventName : string }.
Record step_data := { EventId : Z; Data : option pyval }.

(** ** The methods of [PluginServer] *)

Section Server.
Context `{JsonDecoder}.

(** One pass of the loop body of [_clear_expired_plugins] over [iid]. *)
Definition clear_if_expired (ttl : Z) (iid : Z) : M unit :=
  let* s := get in
  match instances s !! iid with
  | None => raise (KeyError (pretty iid))
  | Some instance =>
      let* t := time_time in
      if Instance.is_expired ttl t instance then
        let* msg := format "cleanup instance #%d of %s" [FInt iid; FStr (Instance.name instance)] in
        logger_debug msg >>
        modify (set_instances (delete iid))
      else ret tt
  end.

(** [gsleep(ttl)] lets [ttl] ticks pass. *)
Definition gsleep (ttl : Z) : M unit :=
  let* s := get in
  modify (set_now (now s + Z.max 0 ttl)).

(** One round of the [while True] loop of [_clear_expired_plugins]. *)
Definition sweep (ttl : Z) : M unit :=
  gsleep ttl >>
  acquire I_lock >>
  let* s := get in
  let keys := (map_to_list (instances s)).*1 in
  for_each keys (clear_if_expired ttl) >>
  release I_lock.

(** The first [rounds] rounds of the loop, which never returns. *)
Fixpoint _clear_expired_plugins (ttl : Z) (rounds : nat) : M unit :=
  match rounds with
  | O => ret tt
  | S n => sweep ttl >> _clear_expired_plugins ttl n
  end.

Definition get_plugin_info (name : string) : M (pyval * pyval) :=
  let* s := get in
  match plugins s !! name with
  | None =>
      let* msg := format " not initizlied" [FStr name] in
      raise (PluginServerException msg)
  | Some plugin =>
      let info :=
        PDict [ ("Name", PStr name);
                ("Phases", Mod.phases plugin);
                ("Priority", Mod.priority plugin);
                ("Schema",
                  PDict [ ("name", PStr name);
                          ("fields",
                            PList [ PDict [ ("config",
                              PDict [ ("type", PStr "record");
                                      ("fields", Mod.schema plugin) ]) ] ]) ]) ] in
      ret (info, PNone)
  end.

Definition start_instance (cfg : start_cfg) : M (pyval * pyval) :=
  locked_by I_lock (
    let name := Name cfg in
    let* s := get in
    match plugins s !! name with
    | None =>
        let* msg := format " not initizlied" [FStr name] in
        raise (PluginServerException msg)
    | Some plugin =>
        let* config := loads (Config cfg) in
        let iid := instance_id s in
        let* ins := new name plugin config in
        modify (set_instances (<[iid := ins]>)) >>
        modify (set_instance_id (iid + 1)) >>
        let* msg := format "instance #%d of %s started" [FInt iid; FStr name] in
        logger_info msg >>
        let* t := time_time in
        ret (PDict [ ("Name", PStr name);
                     ("Id", PInt iid);
                     ("Config", config);
                     ("StartTime", PTime t) ], PNone)
    end).

Definition instance_status (iid : Z) : M (pyval * pyval) :=
  let* s := get in
  match instances s !! iid with
  | None =>
      let* msg := format "instance #%s not found" [FInt iid] in
      ret (PNone, PStr msg)
  | Some ins =>
      ret (PDict [ ("Name", PStr (Instance.name ins));
                   ("Id", PInt iid);
                   ("Config", Instance.config ins);
                   ("StartTime", PTime (Instance.start_time ins)) ], PNone)
  end.

Definition close_instance (iid : Z) : M (pyval * pyval) :=
  locked_by I_lock (
    let* s := get in
    match instances s !! iid with
    | None =>
        let* msg := format "instance #%s not found" [FInt iid] in
        ret (PNone, PStr msg)
    | Some ins =>
        close_cb iid ins >>
        modify (set_instances (delete iid)) >>
        let* n := getitem ins "name" in
        let* c := getitem ins "config" in
        ret (PDict [ ("Name", n); ("Id", PInt iid); ("Config", c) ], PNone)
    end).

Definition handle_event (ev : event) : M (pyval * pyval) :=
  locked_by E_lock (
    let iid := InstanceId ev in
    let* s := get in
    match instances s !! iid with
    | None =>
        let* msg := format "instance id %s not found" [FInt iid] in
        raise (PluginServerException msg)
    | Some instance =>
        reset_expire_ts iid >>
        let cls := Instance.cls instance in
        let phase := EventName ev in
        let eid := event_id s in
        modify (set_event_id (eid + 1)) >>
        let* ch :=
          if multiprocess s then
            let* ch := Pipe in
            modify (set_events (<[eid := ch]>)) >>
            let* cls_phase := getattr cls phase in
            apply_async ch cls_phase >>
            ret ch
          else
            let* ch := Channel in
            modify (set_events (<[eid := ch]>)) >>
            let* cls_phase := getattr cls phase in
            gspawn ch cls_phase >>
            ret ch
        in
        let* r := chan_get ch in
        reset_expire_ts iid >>
        ret (PDict [ ("Data", r); ("EventId", PInt eid) ], PNone)
    end).

Definition _step (data : step_data) (is_error : bool) : M (pyval * pyval) :=
  let eid := EventId data in
  let* s := get in
  match events s !! eid with
  | None =>
      let* msg := format "event id %s not found" [FInt eid] in
      raise (PluginServerException msg)
  | Some ch =>
      let dd := default PNone (Data data) in
      (if is_error then chan_put ch (PNone, dd) else chan_put ch (dd, PNone)) >>
      let* r := chan_get ch in
      (if is_MSG_RET r then modify (set_events (delete eid)) else ret tt) >>
      ret (PDict [ ("Data", r); ("EventId", PInt eid) ], PNone)
  end.

Definition step (data : step_data) : M (pyval * pyval) := _step data false.

Definition step_error (data : step_data) : M (pyval * pyval) := _step data true.

End Server.

(** ** Method-name aliases (lines 276-279) *)

Definition method : Type := step_data → M (pyval * pyval).

(** The resume methods of the class body, by attribute name. *)
Definition class_body : gmap string method :=
  <["step" := step]> (<["step_error" := step_error]> ∅).

(** [setattr(PluginServer, name, fn)] *)
Definition setattr (name : string) (fn : method)
    (cls : gmap string method) : gmap string method :=
  <[name := fn]> cls.

(** The class once the module has been imported: the [for] loop over
    [entities], then the assignment of [step_multi_map]. *)
Definition PluginServer_class : gmap string method :=
  let cls :=
    foldl (λ cls entity, setattr ("step_" +:+ entity) step cls) class_body entities in
  setattr "step_multi_map" step cls.

(** [getattr(server, name)(data)] *)
Definition call_method (name : string) (data : step_data) : M (pyval * pyval) :=
  match PluginServer_class !! name with
  | Some fn => fn data
  | None => raise (AttributeError name)
  end.

(** ** Sequences of calls *)

Inductive request :=
| GetPluginInfo (name : string)
| StartInstance (cfg : start_cfg)
| InstanceStatus (iid : Z)
| CloseInstance (iid : Z)
| HandleEvent (ev : event)
| Step (data : step_data)
| StepError (data : step_data)
| Sweep (ttl : Z)
| Elapse (d : Z).

(** What one request does: a call of the RPC surface, one round of the
    sweeper task, or time passing between two calls. *)
Definition exec `{JsonDecoder} (r : request) : M (pyval * pyval) :=
  match r with
  | GetPluginInfo name => get_plugin_info name
  | StartInstance cfg => start_instance cfg
  | InstanceStatus iid => instance_status iid
  | CloseInstance iid => close_instance iid
  | HandleEvent ev => handle_event ev
  | Step data => step data
  | StepError data => step_error data
  | Sweep ttl => sweep ttl >> ret (PNone, PNone)
  | Elapse d => gsleep d >> ret (PNone, PNone)
  end.

Record served := {
  req : request;
  out : outcome (pyval * pyval);
  effects : list action
}.

(** The requests are served one after the other; a request that blocks
    leaves its caller stuck and the state as it was at that point. *)
Fixpoint run `{JsonDecoder} (rs : list request) (s : PluginServer) : list served * PluginServer :=
  match rs with
  | [] => ([], s)
  | r :: rs' =>
      match exec r s with
      | (o, s1, tr) =>
          match run rs' s1 with
          | (log, s2) => (Build_served r o tr :: log, s2)
          end
      end
  end.

(** The ids handed out by the [start_instance] calls of a run that
    returned, and the event ids of its [handle_event] calls that returned. *)
Definition returned_int (key : string) (o : outcome (pyval * pyval)) : option Z :=
  match o with
  | Return (d, _) =>
      match py_get key d with
      | Some (PInt z) => Some z
      | _ => None
      end
  | _ => None
  end.

Definition started_id (x : served) : option Z :=
  match req x with
  | StartInstance _ => returned_int "Id" (out x)
  | _ => None
  end.

Definition begun_event (x : served) : option Z :=
  match req x with
  | HandleEvent _ => returned_int "EventId" (out x)
  | _ => None
  end.

Definition started_ids (log : list served) : list Z := omap started_id log.
Definition begun_events (log : list served) : list Z := omap begun_event log.

(** ** Locks and channel I/O in a list of effects

    The locks held at the moments of channel I/O, given the locks held at
    the start. *)
Definition remove_lock (l : lock) (held : list lock) : list lock :=
  filter (λ l', l' ≠ l) held.

Fixpoint held_during_io (held : list lock) (tr : list action) : list lock :=
  match tr with
  | [] => []
  | Acquire l :: tr' => held_during_io (l :: held) tr'
  | Release l :: tr' => held_during_io (remove_lock l held) tr'
  | Send _ _ :: tr' => held ++ held_during_io held tr'
  | Recv _ :: tr' => held ++ held_during_io held tr'
  | _ :: tr' => held_during_io held tr'
  end.

(** ** Sample data *)

(** A decoder that knows two documents. *)
Definition sample_decoder : JsonDecoder := λ raw,
  if String.eqb raw "{}" then Some (PDict [])
  else if String.eqb raw "[10]" then Some (PList [PInt 10])
  else None.

(** A handler that logs one line and then sets a response header. *)
Definition log_then_header : handler :=
  HCall (PDict [("Method", PStr "kong.log.info"); ("Args", PList [PStr "hi"])]) (λ _ : pyval * pyval,
  HCall (PDict [("Method", PStr "kong.response.set_header")]) (λ _, HReturn)).

(** A plugin class with an [access] phase that makes two calls, a [log]
    phase that makes none and a [rewrite] phase that raises. *)
Definition sample_phases (phase : string) : option handler :=
  if String.eqb phase "access" then Some log_then_header
  else if String.eqb phase "log" then Some HReturn
  else if String.eqb phase "rewrite" then Some (HRaise (PluginError "boom"))
  else None.

Definition sample_cls (config : pyval) : exn + (string → option handler) :=
  inr sample_phases.

Definition rate_limit : Mod.t :=
  Mod.mk "rate-limit" 0 0 (PList [PStr "access"; PStr "log"; PStr "rewrite"]) (PInt 1000)
    (PList [PDict [("limit", PDict [("type", PStr "number")])]]) 0 0 sample_cls None.

(** A server in cooperative mode with one plugin loaded, at time 0. *)
Definition fresh_server : PluginServer :=
  __init__ {[ "rate-limit" := rate_limit ]} false 0.

Definition start_rate_limit : request :=
  StartInstance {| Name := "rate-limit"; Config := "{}" |}.

Definition begin_access : request :=
  HandleEvent {| InstanceId := 0; EventName := "access" |}.

Definition resume_0 : request := Step {| EventId := 0; Data := None |}.

(** The sample server after instance 0 has been started. *)
Definition serving : PluginServer :=
  (run (H := sample_decoder) [start_rate_limit] fresh_server).2.

(** The sample server with event 0 in flight on instance 0. *)
Definition in_flight : PluginServer :=
  (run (H := sample_decoder) [start_rate_limit; begin_access] fresh_server).2.

(** The sample server one tick after instance 0 has been started. *)
Definition idle : PluginServer :=
  (run (H := sample_decoder) [start_rate_limit; Elapse 1] fresh_server).2.

(** The sample server 100 ticks after event 0 began, once it has been
    resumed a first time. *)
Definition resumed_late : PluginServer :=
  (run (H := sample_decoder) [Elapse 100; resume_0] in_flight).2.

(** The first outward call of the [access] phase of the sample plugin. *)
Definition first_call : pyval :=
  PDict [("Method", PStr "kong.log.info"); ("Args", PList [PStr "hi"])].

(** The instance the sample server holds under id 0. *)
Definition sample_instance : Instance.t :=
  Instance.mk "rate-limit" (PDict []) 0 0 sample_phases None.

(** ** Vocabulary of the properties *)

(** The three components of a finished call. *)
Definition outcome_of {A} (r : outcome A * PluginServer * list action) : outcome A := r.1.1.
Definition state_of {A} (r : outcome A * PluginServer * list action) : PluginServer := r.1.2.
Definition effects_of {A} (r : outcome A * PluginServer * list action) : list action := r.2.

(** What the sweeper leaves of one entry of the instance table. *)
Definition keep_fresh (ttl now : Z) (o : option Instance.t) : option Instance.t :=
  match o with
  | Some ins => if Instance.is_expired ttl now ins then None else Some ins
  | None => None
  end.

Definition is_log (a : action) : Prop := ∃ lv msg, a = Log lv msg.

(** Every id in the instance table was handed out by the counter. *)
Definition ids_below_counter (s : PluginServer) : Prop :=
  ∀ k, is_Some (instances s !! k) → k < instance_id s.

(** A served request is terminal for [eid] when it is a resume of [eid]
    that returned the terminal sentinel as its data. *)
Definition terminal_for (eid : Z) (x : served) : bool :=
  match req x, out x with
  | Step d, Return (r, _) | StepError d, Return (r, _) =>
      bool_decide (EventId d = eid)
      && match py_get "Data" r with
         | Some v => is_MSG_RET v
         | None => false
         end
  | _, _ => false
  end.

(** ** The status view (lines 115-137) *)

(** What the server asks of the operating system. *)
Class Os := {
  getpid : Z;                               (* os.getpid() *)
  listdir : string → exn + list string;     (* os.listdir(path) *)
  splitext : string → string * string;      (* os.path.splitext(p) *)
  path_join : string → string → string;     (* os.path.join(a, b) *)
  path_exists : string → bool               (* os.path.exists(path) *)
}.

(** [if v:] *)
Definition truthy (v : pyval) : bool :=
  match v with
  | PNone => false
  | PBool b => b
  | PInt z => negb (z =? 0)
  | PTime t => negb (t =? 0)
  | PStr s => negb (String.eqb s "")
  | PList l => match l with [] => false | _ => true end
  | PDict d => match d with [] => false | _ => true end
  end.

(** [str(v)] for the one kind of value [get_status] passes to an
    exception, the error string of [instance_status]. *)
Definition message_of (v : pyval) : string :=
  match v with
  | PStr s => s
  | _ => ""
  end.

(** [d[k] = v] on a dictionary under construction. *)
Fixpoint dict_set (k : string) (v : pyval) (d : list (string * pyval)) : list (string * pyval) :=
  match d with
  | [] => [(k, v)]
  | (k', v') :: d' => if String.eqb k k' then (k, v) :: d' else (k', v') :: dict_set k v d'
  end.

(** A [for] loop that builds a value. *)
Fixpoint for_fold {A B} (l : list A) (acc : B) (body : B → A → M B) : M B :=
  match l with
  | [] => ret acc
  | x :: l' => let* acc' := body acc x in for_fold l' acc' body
  end.

(** [for iid in self.instances]: a dictionary is walked in the order of
    insertion, and the ids of the instance table are inserted in
    increasing order (line 169 takes each from the counter), so the walk
    is by increasing id. *)
Definition instance_ids (s : PluginServer) : list Z :=
  merge_sort Z.le (map_to_list (instances s)).*1.

(** The inner loop of [get_status], lines 119-124. *)
Definition status_of_instances : M (list pyval) :=
  let* s := get in
  for_fold (instance_ids s) [] (λ instances iid,
    let* r := instance_status iid in
    let '(i, err) := r in
    if truthy err then raise (PluginServerException (message_of err))
    else ret (instances ++ [i])).

Definition get_status `{Os} : M (pyval * pyval) :=
  locked_by I_lock (
    let* s := get in
    let* plugin_status :=
      for_fold (map_to_list (plugins s)).*1 [] (λ plugin_status name,
        let* instances := status_of_instances in
        let* s1 := get in
        match plugins s1 !! name with
        | None => raise (KeyError name)
        | Some plugin =>
            ret (dict_set name
                   (PDict [ ("Name", PStr name);
                            ("Modtime", PTime (Mod.mtime plugin));
                            ("LoadTime", PTime (Mod.load_time plugin));
                            ("Instances", PList instances);
                            ("LastStartInstance", PTime (Mod.last_start_instance_time plugin));
                            ("LastCloseInstance", PTime (Mod.last_close_instance_time plugin)) ])
                   plugin_status)
        end) in
    ret (PDict [ ("Pid", PInt getpid); ("Plugins", PDict plugin_status) ], PNone)).

(** The status entry of one instance id, as [instance_status] builds it. *)
Definition instance_entry (s : PluginServer) (iid : Z) : pyval :=
  match instances s !! iid with
  | Some ins =>
      PDict [ ("Name", PStr (Instance.name ins)); ("Id", PInt iid);
              ("Config", Instance.config ins);
              ("StartTime", PTime (Instance.start_time ins)) ]
  | None => PNone
  end.

(** The list every plugin reports under [Instances]. *)
Definition all_instance_entries (s : PluginServer) : list pyval :=
  instance_entry s <$> instance_ids s.

(** The status record of one plugin. *)
Definition plugin_entry (s : PluginServer) (name : string) : pyval :=
  match plugins s !! name with
  | Some plugin =>
      PDict [ ("Name", PStr name);
              ("Modtime", PTime (Mod.mtime plugin));
              ("LoadTime", PTime (Mod.load_time plugin));
              ("Instances", PList (all_instance_entries s));
              ("LastStartInstance", PTime (Mod.last_start_instance_time plugin));
              ("LastCloseInstance", PTime (Mod.last_close_instance_time plugin)) ]
  | None => PNone
  end.

(** ** Loading plugins (lines 93-113) *)

(** [exts = ('.py', '.pyd', '.so')] *)
Definition exts : list string := [ ".py"; ".pyd"; ".so" ].

(** Modelled from the spec: the constructor [Module(n, path=path)] of the
    missing [kong_pdk/module.py], the Plugin Loader of the specification:
    it yields the definition of the plugin in the file, or raises. *)
Class PluginLoader := Module_new : string → string → exn + Mod.t.

(** The two lines [_load_plugins] can log about a file. *)
Inductive load_line :=
| WarnErrorLoading (n : string) (ex : exn)
| DebugLoaded (n : string) (path : string).

(** [if self.plugin_dir:] *)
Definition dir_set (plugin_dir : option string) : option string :=
  match plugin_dir with
  | Some dir => if String.eqb dir "" then None else Some dir
  | None => None
  end.

Section Loading.
Context `{Os} `{PluginLoader}.

(** The body of the loop of [_load_plugins] for the entry [p] of the
    directory: the registry and the log lines so far, and after. *)
Definition load_entry (plugin_dir : string)
    (st : gmap string Mod.t * list load_line) (p : string)
    : gmap string Mod.t * list load_line :=
  let '(n, ext) := splitext p in
  if bool_decide (ext ∈ exts) then
    let path := path_join plugin_dir p in
    match Module_new n path with
    | inl ex => (st.1, st.2 ++ [WarnErrorLoading n ex])
    | inr md => (<[n := md]> st.1, st.2 ++ [DebugLoaded n path])
    end
  else st.

(** [_load_plugins], on [self.plugin_dir] and [self.plugins]: the
    exception it raises, or the registry it leaves and the lines it logs. *)
Definition _load_plugins (plugin_dir : option string) (plugins : gmap string Mod.t)
    : exn + (gmap string Mod.t * list load_line) :=
  match dir_set plugin_dir with
  | None =>
      inl (PluginServerException
             "plugin server is not initialized, call SetPluginDir first")
  | Some dir =>
      match listdir dir with
      | inl ex => inl ex
      | inr names => inr (foldl (load_entry dir) (plugins, []) names)
      end
  end.

(** [set_plugin_dir(dir)] on [self.plugin_dir]: the pair it returns and
    the attribute afterwards. *)
Definition set_plugin_dir (dir : string) (plugin_dir : option string)
    : (pyval * pyval) * option string :=
  if negb (path_exists dir) then ((PNone, PStr (dir +:+ " not exists")), plugin_dir)
  else ((PStr "ok", PNone), Some dir).

(** [PluginServer(plugin_dir=..., multiprocess=...)] at time [t0]: the
    exception the constructor raises, or the new server and the lines
    logged while loading. *)
Definition PluginServer_new (plugin_dir : option string) (multiprocess : bool) (t0 : Z)
    : exn + (PluginServer * list load_line) :=
  match dir_set plugin_dir with
  | Some _ =>
      match _load_plugins plugin_dir ∅ with
      | inl ex => inl ex
      | inr (loaded, lines) => inr (__init__ loaded multiprocess t0, lines)
      end
  | None => inr (__init__ ∅ multiprocess t0, [])
  end.

(** The file [p] of directory [dir] is a plugin [n] that loads as [m]. *)
Definition loads_as (dir p n : string) (m : Mod.t) : Prop :=
  (splitext p).1 = n ∧ (splitext p).2 ∈ exts ∧ Module_new n (path_join dir p) = inr m.

End Loading.

(** Every event id of the continuation table was handed out by the
    counter, its channel exists, and no two event ids share a channel. *)
Definition continuations_wf (s : PluginServer) : Prop :=
  (∀ eid ch, events s !! eid = Some ch →
     eid < event_id s ∧ (ch < length (channels s))%nat)
  ∧ (∀ e1 e2 ch, events s !! e1 = Some ch → events s !! e2 = Some ch → e1 = e2).

(** Two plugin definitions that differ at most in their two
    last-instance timestamps. *)
Definition same_definition (p q : Mod.t) : Prop :=
  Mod.name p = Mod.name q ∧ Mod.mtime p = Mod.mtime q
  ∧ Mod.load_time p = Mod.load_time q ∧ Mod.phases p = Mod.phases q
  ∧ Mod.priority p = Mod.priority q ∧ Mod.schema p = Mod.schema q
  ∧ Mod.cls p = Mod.cls q ∧ Mod.close_cb p = Mod.close_cb q.

(** ** Sample data for the status view and the loader *)

(** A plugin directory with a plugin in two forms, a file that is no
    plugin and a plugin that does not load. *)
Definition sample_listing : list string :=
  [ "rate-limit.py"; "README.md"; "broken.py"; "rate-limit.so" ].

Definition sample_splitext (p : string) : string * string :=
  if String.eqb p "rate-limit.py" then ("rate-limit", ".py")
  else if String.eqb p "rate-limit.so" then ("rate-limit", ".so")
  else if String.eqb p "broken.py" then ("broken", ".py")
  else if String.eqb p "README.md" then ("README", ".md")
  else (p, "").

Definition sample_os : Os := {|
  getpid := 4242;
  listdir := λ path,
    if String.eqb path "plugins" then inr sample_listing
    else inl (PluginError "no such directory");
  splitext := sample_splitext;
  path_join := λ a b, a +:+ "/" +:+ b;
  path_exists := λ path, String.eqb path "plugins"
|}.

Definition sample_loader : PluginLoader := λ n path,
  if String.eqb n "rate-limit" then inr rate_limit
  else inl (PluginError "invalid syntax").

(** What the [access] phase of the sample plugin does after its first
    outward call has been answered. *)
Definition then_header : pyval * pyval → handler :=
  λ _, HCall (PDict [("Method", PStr "kong.response.set_header")]) (λ _, HReturn).

(** ** Vocabulary of the conversation on one event *)

(** The request that resumes [eid] with a payload, as a result or, when
    the flag is set, as an error. *)
Definition resume (eid : Z) (p : option pyval * bool) : request :=
  if p.2 then StepError {| EventId := eid; Data := p.1 |}
  else Step {| EventId := eid; Data := p.1 |}.

(** The two-slot result such a resume sends (lines 247-258). *)
Definition result_of (p : option pyval * bool) : pyval * pyval :=
  let dd := default PNone p.1 in
  if p.2 then (PNone, dd) else (dd, PNone).

(** The outward calls a handler makes in answer to the given payloads,
    when it waits for the first of them with continuation [k], answers
    every payload but the last with a further call and returns on the
    last. *)
Fixpoint converse (payloads : list (option pyval * bool))
    (k : pyval * pyval → handler) : option (list pyval) :=
  match payloads with
  | [] => None
  | p :: ps =>
      match k (result_of p) with
      | HReturn => match ps with [] => Some [] | _ :: _ => None end
      | HCall call k' => if is_MSG_RET call then None else cons call <$> converse ps k'
      | HRaise _ => None
      end
  end.

(** What a resume of [eid] returns when the worker puts [item]. *)
Definition resumed (eid : Z) (item : pyval) : outcome (pyval * pyval) :=
  Return (PDict [ ("Data", item); ("EventId", PInt eid) ], PNone).

(** The event id a request takes from the counter (lines 216-217), if
    any: a [handle_event] that leaves the counter changed took the value
    it found, whether the call then returns, raises or blocks. *)
Definition allocation `{JsonDecoder} (r : request) (s : PluginServer) : option Z :=
  match r with
  | HandleEvent _ =>
      if bool_decide (event_id (state_of (exec r s)) = event_id s) then None
      else Some (event_id s)
  | _ => None
  end.

(** The event ids taken from the counter in a run, in order. *)
Fixpoint allocated_events `{JsonDecoder} (rs : list request) (s : PluginServer) : list Z :=
  match rs with
  | [] => []
  | r :: rs' =>
      match allocation r s with
      | Some z => z :: allocated_events rs' (state_of (exec r s))
      | None => allocated_events rs' (state_of (exec r s))
      end
  end.

(** ** A plugin whose close hook fails *)

Definition fragile : Mod.t :=
  Mod.mk "fragile" 0 0 (PList [PStr "access"]) (PInt 10) (PList []) 0 0 sample_cls
    (Some (PluginError "cleanup failed")).

(** A server with the fragile plugin loaded and instance 0 of it started. *)
Definition fragile_serving : PluginServer :=
  (run (H := sample_decoder) [StartInstance {| Name := "fragile"; Config := "{}" |}]
     (__init__ {[ "fragile" := fragile ]} false 0)).2.

Definition fragile_instance : Instance.t :=
  Instance.mk "fragile" (PDict []) 0 0 sample_phases
    (Some (PluginError "cleanup failed")).

(** * Properties *)

(** ** The messages of the server *)

Lemma format_instance_not_found iid :
  py_format "instance #%s not found" [FInt iid]
  = inr ("instance #" +:+ pretty iid +:+ " not found").
Proof. reflexivity. Qed.

Lemma format_instance_id_not_found iid :
  py_format "instance id %s not found" [FInt iid]
  = inr ("instance id " +:+ pretty iid +:+ " not found").
Proof. reflexivity. Qed.

Lemma format_event_not_found eid :
  py_format "event id %s not found" [FInt eid]
  = inr ("event id " +:+ pretty eid +:+ " not found").
Proof. reflexivity. Qed.

Lemma format_started iid name :
  py_format "instance #%d of %s started" [FInt iid; FStr name]
  = inr ("instance #" +:+ pretty iid +:+ " of " +:+ name +:+ " started").
Proof. reflexivity. Qed.

Lemma format_cleanup iid name :
  py_format "cleanup instance #%d of %s" [FInt iid; FStr name]
  = inr ("cleanup instance #" +:+ pretty iid +:+ " of " +:+ name +:+ "").
Proof. reflexivity. Qed.

(** A format without a conversion cannot take an argument. *)
Lemma format_not_initizlied name :
  py_format " not initizlied" [FStr name]
  = inl (TypeError "not all arguments converted during string formatting").
Proof. reflexivity. Qed.

Example format_sample : py_format "instance #%s not found" [FInt 7] = inr "instance #7 not found".
Proof. reflexivity. Qed.

(** ** Running method bodies *)

Ltac unfold_methods :=
  unfold exec, get_plugin_info, start_instance, instance_status, close_instance,
         handle_event, step, step_error, _step, clear_if_expired, locked_by,
         new, close_cb, reset_expire_ts, getitem, Pipe, Channel, new_channel,
         getattr, apply_async, gspawn, start_worker,
         chan_put, chan_get, gsleep, loads, logger_info, logger_debug, format,
         acquire, release, time_time, try_except, bind, ret, raise, block,
         get, modify, emit in *.

Ltac split_cases := repeat (simplify_eq/=; try case_match).


(** ** The instance table *)

Lemma close_instance_absent (s : PluginServer) (iid : Z) (n : nat) :
  i_lock s = S n →
  instances s !! iid = None →
  close_instance iid s
  = (Return (PNone, PStr ("instance #" +:+ pretty iid +:+ " not found")), s,
     [Acquire I_lock; Release I_lock]).
Proof.
  intros Hl Hi. destruct s; simpl in *; subst.
  unfold_methods. simpl. rewrite Hi. reflexivity.
Qed.

Lemma close_instance_blocked (s : PluginServer) (iid : Z) :
  i_lock s = O → close_instance iid s = (Block, s, [Acquire I_lock]).
Proof. intros Hl. unfold_methods. simpl. rewrite Hl. reflexivity. Qed.

(** [close_instance] on an id that is in the table, with the lock free
    and a close hook that completes: the state it leaves and the way it
    ends. *)
Lemma close_instance_present (s : PluginServer) (iid : Z) (ins : Instance.t) (n : nat) :
  i_lock s = S n →
  instances s !! iid = Some ins →
  Instance.close_cb ins = None →
  close_instance iid s
  = (Raise (TypeError "'Instance' object is not subscriptable"),
     set_instances (delete iid)
       (set_plugins
          (alter (Mod.set_last_close_instance_time (now s)) (Instance.name ins)) s),
     [Acquire I_lock; CloseCb iid; Release I_lock]).
Proof.
  intros Hl Hi Hc. destruct s; simpl in *; subst.
  unfold_methods. simpl. rewrite Hi. simpl. rewrite Hc. reflexivity.
Qed.

(** The same with a close hook that raises: line 199 is not reached. *)
Lemma close_instance_hook_raises
    (s : PluginServer) (iid : Z) (ins : Instance.t) (n : nat) (e : exn) :
  i_lock s = S n →
  instances s !! iid = Some ins →
  Instance.close_cb ins = Some e →
  close_instance iid s = (Raise e, s, [Acquire I_lock; CloseCb iid; Release I_lock]).
Proof.
  intros Hl Hi Hc. destruct s; simpl in *; subst.
  unfold_methods. simpl. rewrite Hi. simpl. rewrite Hc. reflexivity.
Qed.

(** C1: [close_instance] on an id that is in the instance table runs
    the close hook and never returns the descriptor: the call raises, with
    the lock released.  When the hook completes the entry is removed and
    the call then raises a [TypeError] on [ins['name']]; when the hook
    raises, the call raises the hook's exception and the server is as
    before. *)
Theorem close_instance_raises_after_removal
    (s : PluginServer) (iid : Z) (ins : Instance.t) (n : nat) :
  i_lock s = S n →
  instances s !! iid = Some ins →
  ∃ s' e,
    close_instance iid s
    = (Raise e, s', [Acquire I_lock; CloseCb iid; Release I_lock])
    ∧ i_lock s' = i_lock s
    ∧ match Instance.close_cb ins with
      | None =>
          e = TypeError "'Instance' object is not subscriptable"
          ∧ instances s' = delete iid (instances s)
      | Some e' => e = e' ∧ s' = s
      end.
Proof.
  intros Hl Hi. destruct (Instance.close_cb ins) as [e'|] eqn:Hc.
  - exists s, e'. split.
    + apply (close_instance_hook_raises s iid ins n e' Hl Hi Hc).
    + by repeat split.
  - eexists _, _. split.
    + apply (close_instance_present s iid ins n Hl Hi Hc).
    + by repeat split.
Qed.

Lemma close_instance_raises_after_removal_witness :
  i_lock serving = 1%nat
  ∧ instances serving !! 0 = Some sample_instance
  ∧ Instance.close_cb sample_instance = None
  ∧ ∃ s',
      close_instance 0 serving
      = (Raise (TypeError "'Instance' object is not subscriptable"), s',
         [Acquire I_lock; CloseCb 0; Release I_lock])
      ∧ instances s' = delete 0 (instances serving)
      ∧ i_lock s' = i_lock serving.
Proof.
  split; [reflexivity|]. split; [reflexivity|]. split; [reflexivity|].
  destruct (close_instance_raises_after_removal serving 0 sample_instance 0%nat
              eq_refl eq_refl) as (s' & e & Heq & Hlock & He & Hdel).
  exists s'. rewrite He in Heq. split; [exact Heq|]. split; [exact Hdel|exact Hlock].
Defined.

(** C8: once [close_instance(iid)] has returned or raised, what has
    become of [iid] depends on the close hook alone.  When [iid] was
    unknown or the hook of its instance completes, [iid] is not in the
    instance table and [instance_status(iid)] answers with the not-found
    pair.  When the hook raises, [close_instance] raises the hook's
    exception with the lock released, the entry stays as it was and
    [instance_status(iid)] still returns its descriptor. *)
Theorem closed_instance_not_found (s : PluginServer) (iid : Z) :
  outcome_of (close_instance iid s) ≠ Block →
  let s' := state_of (close_instance iid s) in
  match instances s !! iid ≫= Instance.close_cb with
  | None =>
      instances s' !! iid = None
      ∧ instance_status iid s'
        = (Return (PNone, PStr ("instance #" +:+ pretty iid +:+ " not found")), s', [])
  | Some e =>
      close_instance iid s = (Raise e, s, [Acquire I_lock; CloseCb iid; Release I_lock])
      ∧ ∃ ins, instances s !! iid = Some ins
               ∧ instance_status iid s'
                 = (Return (PDict [ ("Name", PStr (Instance.name ins)); ("Id", PInt iid);
                                    ("Config", Instance.config ins);
                                    ("StartTime", PTime (Instance.start_time ins)) ],
                            PNone), s', [])
  end.
Proof.
  intros Ho s'. subst s'. destruct (i_lock s) as [|n] eqn:Hl.
  { rewrite close_instance_blocked in Ho by done. done. }
  destruct (instances s !! iid) as [ins|] eqn:Hi; simpl.
  - destruct (Instance.close_cb ins) as [e|] eqn:Hc.
    + rewrite (close_instance_hook_raises s iid ins n e Hl Hi Hc).
      split; [done|]. exists ins. split; [done|].
      unfold state_of, instance_status, bind, get. simpl. rewrite Hi. reflexivity.
    + rewrite (close_instance_present s iid ins n Hl Hi Hc). unfold state_of; simpl.
      split; [apply lookup_delete_eq|].
      unfold instance_status, bind, get. simpl. rewrite lookup_delete_eq. reflexivity.
  - rewrite (close_instance_absent s iid n) by done. unfold state_of; simpl.
    split; [done|]. unfold instance_status, bind, get. rewrite Hi. reflexivity.
Qed.

Lemma closed_instance_not_found_witness :
  outcome_of (close_instance 0 serving) ≠ Block
  ∧ instances (state_of (close_instance 0 serving)) !! 0 = None
  ∧ instance_status 0 (state_of (close_instance 0 serving))
    = (Return (PNone, PStr "instance #0 not found"),
       state_of (close_instance 0 serving), []).
Proof.
  assert (outcome_of (close_instance 0 serving) ≠ Block) as Ho
    by (vm_compute; discriminate).
  split; [exact Ho|].
  exact (closed_instance_not_found serving 0 Ho).
Defined.

(** Instance 0 of the fragile plugin: its close hook raises, so
    [close_instance(0)] raises before the delete of line 199, and
    [instance_status(0)] afterwards still finds the instance. *)
Lemma raising_close_hook_counterexample :
  instances fragile_serving !! 0 = Some fragile_instance
  ∧ close_instance 0 fragile_serving
    = (Raise (PluginError "cleanup failed"), fragile_serving,
       [Acquire I_lock; CloseCb 0; Release I_lock])
  ∧ instance_status 0 (state_of (close_instance 0 fragile_serving))
    = (Return (PDict [ ("Name", PStr "fragile"); ("Id", PInt 0);
                       ("Config", PDict []); ("StartTime", PTime 0) ], PNone),
       fragile_serving, []).
Proof. repeat split; reflexivity. Qed.

(** ** The admin surface *)

(** C4: [get_plugin_info] on a registered name returns the definition's
    phases, priority and schema unchanged, the schema as the fields of the
    [config] record; on an unregistered name the message of the intended
    exception cannot be formatted and the call ends in a [TypeError]. *)
Theorem get_plugin_info_cases (s : PluginServer) (name : string) :
  match plugins s !! name with
  | None =>
      get_plugin_info name s
      = (Raise (TypeError "not all arguments converted during string formatting"), s, [])
  | Some plugin =>
      get_plugin_info name s
      = (Return
           (PDict [ ("Name", PStr name);
                    ("Phases", Mod.phases plugin);
                    ("Priority", Mod.priority plugin);
                    ("Schema",
                      PDict [ ("name", PStr name);
                              ("fields",
                                PList [ PDict [ ("config",
                                  PDict [ ("type", PStr "record");
                                          ("fields", Mod.schema plugin) ]) ] ]) ]) ],
            PNone), s, [])
  end.
Proof.
  unfold get_plugin_info, bind, get. destruct (plugins s !! name); reflexivity.
Qed.

Example get_plugin_info_unregistered :
  get_plugin_info "nope" fresh_server
  = (Raise (TypeError "not all arguments converted during string formatting"),
     fresh_server, []).
Proof. reflexivity. Qed.

Section Start.
Context `{JsonDecoder}.

(** C5: [start_instance] reports its failures by raising.  With the lock
    free, an unknown name ends the call in an exception and a malformed
    payload in the decoder's [JSONDecodeError], the lock released and the
    server unchanged; a pair that [start_instance] returns never carries
    an error. *)
Theorem start_instance_failures (s : PluginServer) (cfg : start_cfg) (n : nat) :
  i_lock s = S n →
  (plugins s !! Name cfg = None →
     ∃ e, start_instance cfg s = (Raise e, s, [Acquire I_lock; Release I_lock]))
  ∧ (is_Some (plugins s !! Name cfg) → json_loads (Config cfg) = None →
     start_instance cfg s = (Raise JSONDecodeError, s, [Acquire I_lock; Release I_lock]))
  ∧ (∀ r err s' tr, start_instance cfg s = (Return (r, err), s', tr) → err = PNone).
Proof.
  intros Hl. split; [|split].
  - intros Hp. eexists. destruct s; simpl in *; subst.
    unfold_methods. simpl. rewrite Hp. reflexivity.
  - intros [p Hp] Hj. destruct s; simpl in *; subst.
    unfold_methods. simpl. rewrite Hp. simpl. rewrite Hj. reflexivity.
  - intros r err s' tr. unfold_methods. simpl. rewrite Hl. simpl.
    intros Heq. split_cases. done.
Qed.

End Start.

Lemma start_instance_failures_witness :
  i_lock fresh_server = 1%nat
  ∧ (plugins fresh_server !! "nope" = None →
     ∃ e, start_instance (H := sample_decoder) {| Name := "nope"; Config := "{" |} fresh_server
          = (Raise e, fresh_server, [Acquire I_lock; Release I_lock]))
  ∧ (is_Some (plugins fresh_server !! "nope") → sample_decoder "{" = None →
     start_instance (H := sample_decoder) {| Name := "nope"; Config := "{" |} fresh_server
     = (Raise JSONDecodeError, fresh_server, [Acquire I_lock; Release I_lock]))
  ∧ (∀ r err s' tr,
       start_instance (H := sample_decoder) {| Name := "nope"; Config := "{" |} fresh_server
       = (Return (r, err), s', tr) → err = PNone).
Proof.
  split; [reflexivity|].
  apply (start_instance_failures (H := sample_decoder) fresh_server
           {| Name := "nope"; Config := "{" |} 0%nat).
  reflexivity.
Defined.

Lemma start_instance_raises_counterexample :
  plugins fresh_server !! "nope" = None
  ∧ (¬ ∃ r err s' tr,
        start_instance (H := sample_decoder) {| Name := "nope"; Config := "{}" |} fresh_server
        = (Return (r, err), s', tr))
  ∧ is_Some (plugins fresh_server !! "rate-limit")
  ∧ sample_decoder "{" = None
  ∧ (¬ ∃ r err s' tr,
        start_instance (H := sample_decoder) {| Name := "rate-limit"; Config := "{" |} fresh_server
        = (Return (r, err), s', tr)).
Proof.
  split; [reflexivity|]. split.
  { intros (r & err & s' & tr & Heq). vm_compute in Heq. discriminate. }
  split; [by eexists|]. split; [reflexivity|].
  intros (r & err & s' & tr & Heq). vm_compute in Heq. discriminate.
Qed.

(** ** Method-name aliases *)

(** C9: for every entity of [entities], [step_<entity>] is [step], and so
    is [step_multi_map]: called on the same data in the same state they
    end the same way, leave the same state and perform the same effects. *)
Theorem step_aliases (entity : string) (data : step_data) (s : PluginServer) :
  entity ∈ entities →
  call_method ("step_" +:+ entity) data s = step data s
  ∧ call_method "step_multi_map" data s = step data s.
Proof.
  intros Hin. unfold entities in Hin.
  repeat (apply elem_of_cons in Hin as [->|Hin]); [..|by apply elem_of_nil in Hin].
  all: split; reflexivity.
Qed.

Lemma step_aliases_witness :
  "memory_stats" ∈ entities
  ∧ call_method "step_memory_stats" {| EventId := 0; Data := None |} in_flight
    = step {| EventId := 0; Data := None |} in_flight
  ∧ call_method "step_multi_map" {| EventId := 0; Data := None |} in_flight
    = step {| EventId := 0; Data := None |} in_flight.
Proof.
  assert ("memory_stats" ∈ entities) as Hin by (unfold entities; set_solver).
  split; [exact Hin|].
  exact (step_aliases "memory_stats"
           {| EventId := 0; Data := None |} in_flight Hin).
Defined.

(** ** The expiry sweeper *)

Lemma clear_if_expired_present ttl iid s ins :
  instances s !! iid = Some ins →
  clear_if_expired ttl iid s
  = if Instance.is_expired ttl (now s) ins
    then (Return tt, set_instances (delete iid) s,
          [Log Debug ("cleanup instance #" +:+ pretty iid +:+ " of "
                      +:+ Instance.name ins +:+ "")])
    else (Return tt, s, []).
Proof.
  intros Hi. unfold clear_if_expired, bind, get, time_time, ret. rewrite Hi. simpl.
  destruct (Instance.is_expired ttl (now s) ins); reflexivity.
Qed.

(** The loop over the keys: it never raises, logs and nothing else, and
    leaves of the entries it visits those that have not expired. *)
Lemma for_each_clear ttl keys : ∀ s,
  NoDup keys →
  (∀ k, k ∈ keys → is_Some (instances s !! k)) →
  ∃ m' tr,
    for_each keys (clear_if_expired ttl) s = (Return tt, set_instances (λ _, m') s, tr)
    ∧ Forall is_log tr
    ∧ ∀ k, m' !! k = if decide (k ∈ keys)
                     then keep_fresh ttl (now s) (instances s !! k)
                     else instances s !! k.
Proof.
  induction keys as [|k keys IH]; intros s Hnd Hin.
  - exists (instances s), []. split; [by destruct s|]. split; [constructor|].
    intros k. by rewrite decide_False by apply not_elem_of_nil.
  - apply NoDup_cons in Hnd as [Hk Hnd].
    destruct (Hin k) as [ins Hi]; [by left|].
    simpl. unfold bind at 1. rewrite (clear_if_expired_present _ _ _ _ Hi).
    destruct (Instance.is_expired ttl (now s) ins) eqn:Hex.
    + destruct (IH (set_instances (delete k) s) Hnd) as (m' & tr & Heq & Hlog & Hm).
      { intros k' Hk'. simpl. rewrite lookup_delete_ne by (intros ->; done).
        apply Hin. by right. }
      rewrite Heq. eexists m', (_ :: tr).
      split; [by destruct s|]. split; [constructor; [by eexists _, _|done]|].
      intros x. rewrite Hm. simpl. destruct (decide (x = k)) as [->|Hne].
      * rewrite decide_False by done. rewrite decide_True by left.
        rewrite lookup_delete_eq, Hi. simpl. by rewrite Hex.
      * rewrite lookup_delete_ne by done.
        destruct (decide (x ∈ keys)).
        -- by rewrite decide_True by (by right).
        -- rewrite decide_False; [done|]. intros [?|?]%elem_of_cons; done.
    + destruct (IH s Hnd) as (m' & tr & Heq & Hlog & Hm).
      { intros k' Hk'. apply Hin. by right. }
      rewrite Heq. exists m', tr. split; [done|]. split; [done|].
      intros x. rewrite Hm. destruct (decide (x = k)) as [->|Hne].
      * rewrite decide_False by done. rewrite decide_True by left.
        rewrite Hi. simpl. by rewrite Hex.
      * destruct (decide (x ∈ keys)).
        -- by rewrite decide_True by (by right).
        -- rewrite decide_False; [done|]. intros [?|?]%elem_of_cons; done.
Qed.

(** One round of the sweeper when the instance table lock is free. *)
Lemma sweep_free ttl s n :
  i_lock s = S n →
  ∃ m' tr,
    sweep ttl s
    = (Return tt, set_now (now s + Z.max 0 ttl) (set_instances (λ _, m') s),
       Acquire I_lock :: tr ++ [Release I_lock])
    ∧ Forall is_log tr
    ∧ ∀ k, m' !! k = keep_fresh ttl (now s + Z.max 0 ttl) (instances s !! k).
Proof.
  intros Hl. destruct s as [pl ins iid il ev eid el mp chs t]; simpl in *; subst.
  destruct (for_each_clear ttl (map_to_list ins).*1
              (mkServer pl ins iid n ev eid el mp chs (t + Z.max 0 ttl)))
    as (m' & tr & Heq & Hlog & Hm).
  { apply NoDup_fst_map_to_list. }
  { intros k [[k' v] [-> Hkv]]%list_elem_of_fmap.
    apply elem_of_map_to_list in Hkv. by eexists. }
  exists m', tr. split; [|split; [done|]].
  - unfold sweep, gsleep, acquire, release, bind, get, modify, emit, block. simpl.
    rewrite Heq. reflexivity.
  - intros k. rewrite Hm. simpl. destruct (ins !! k) as [i|] eqn:Hi.
    + rewrite decide_True; [done|]. apply list_elem_of_fmap. exists (k, i).
      split; [done|]. by apply elem_of_map_to_list.
    + destruct (decide _); done.
Qed.

Lemma sweep_blocked ttl s :
  i_lock s = O →
  sweep ttl s = (Block, set_now (now s + Z.max 0 ttl) s, [Acquire I_lock]).
Proof.
  intros Hl. unfold sweep, gsleep, acquire. unfold bind, get, modify, emit, block. simpl.
  rewrite Hl. reflexivity.
Qed.

(** ** Runs of requests *)

Section Runs.
Context `{JsonDecoder}.

(** One round of the sweeper as a request. *)
Lemma exec_sweep_cases ttl s :
  (i_lock s = O
   ∧ exec (Sweep ttl) s = (Block, set_now (now s + Z.max 0 ttl) s, [Acquire I_lock]))
  ∨ (∃ m' tr,
       exec (Sweep ttl) s
       = (Return (PNone, PNone),
          set_now (now s + Z.max 0 ttl) (set_instances (λ _, m') s),
          Acquire I_lock :: tr ++ [Release I_lock])
       ∧ Forall is_log tr
       ∧ ∀ k, m' !! k = keep_fresh ttl (now s + Z.max 0 ttl) (instances s !! k)).
Proof.
  destruct (i_lock s) as [|n] eqn:Hl.
  - left. split; [done|]. unfold exec, bind. by rewrite sweep_blocked.
  - right. destruct (sweep_free ttl s n Hl) as (m' & tr & Heq & Hlog & Hm).
    exists m', tr. split; [|done]. unfold exec, bind. rewrite Heq. simpl.
    by rewrite app_nil_r.
Qed.

(** A request never lowers a counter, and an id it returns is the
    counter it found, which it leaves one higher. *)
Lemma exec_counters r s o s' tr :
  exec r s = (o, s', tr) →
  instance_id s ≤ instance_id s' ∧ event_id s ≤ event_id s'
  ∧ (∀ z, started_id (Build_served r o tr) = Some z →
          z = instance_id s ∧ instance_id s' = z + 1)
  ∧ (∀ z, begun_event (Build_served r o tr) = Some z →
          z = event_id s ∧ event_id s' = z + 1).
Proof.
  intros Hex. destruct r.
  8: { destruct (exec_sweep_cases ttl s) as [[_ Heq]|(m' & tr' & Heq & _)];
       rewrite Heq in Hex; simplify_eq; simpl; repeat split; (lia || done). }
  all: unfold_methods; cbn in Hex.
  all: split_cases; repeat split; try lia; try done.
  all: try (match goal with l : lock |- _ => destruct l end; simpl; lia).
  all: unfold started_id, begun_event, returned_int in *; simpl in *; simplify_eq; lia.
Qed.

Lemma run_ids rs : ∀ s,
  instance_id s ≤ instance_id (run rs s).2
  ∧ event_id s ≤ event_id (run rs s).2
  ∧ Forall (λ z, instance_id s ≤ z) (started_ids (run rs s).1)
  ∧ Forall (λ z, event_id s ≤ z) (begun_events (run rs s).1)
  ∧ StronglySorted Z.lt (started_ids (run rs s).1)
  ∧ StronglySorted Z.lt (begun_events (run rs s).1).
Proof.
  induction rs as [|r rs IH]; intros s; simpl.
  - repeat split; try lia; constructor.
  - destruct (exec r s) as [[o s1] tr] eqn:Hex.
    destruct (exec_counters _ _ _ _ _ Hex) as (Hi & He & Hsi & Hse).
    specialize (IH s1). destruct (run rs s1) as [log s2]. simpl in *.
    destruct IH as (Hi2 & He2 & Fi & Fe & Si & Se).
    unfold started_ids, begun_events in *. simpl.
    split; [lia|]. split; [lia|].
    assert (Forall (λ z, instance_id s ≤ z) (omap started_id log)) as Fi'
      by (eapply Forall_impl; [exact Fi|]; simpl; intros; lia).
    assert (Forall (λ z, event_id s ≤ z) (omap begun_event log)) as Fe'
      by (eapply Forall_impl; [exact Fe|]; simpl; intros; lia).
    destruct (started_id _) as [z|] eqn:Hz; destruct (begun_event _) as [e|] eqn:Hb.
    all: try (destruct (Hsi _ eq_refl) as [-> Hz1]).
    all: try (destruct (Hse _ eq_refl) as [-> He1]).
    all: repeat split; try done.
    all: try (constructor; [lia|done]).
    all: try (constructor; [done|]; eapply Forall_impl; [exact Fi|]; simpl; intros; lia).
    all: try (constructor; [done|]; eapply Forall_impl; [exact Fe|]; simpl; intros; lia).
Qed.

Lemma StronglySorted_lt_NoDup (l : list Z) : StronglySorted Z.lt l → NoDup l.
Proof.
  induction 1 as [|x l Hs IH Hx]; constructor; [|done].
  intros Hin. eapply Forall_forall in Hx; [|exact Hin]. lia.
Qed.

Lemma exec_allocation r s z :
  allocation r s = Some z →
  z = event_id s ∧ event_id s < event_id (state_of (exec r s)).
Proof.
  unfold allocation. destruct r; try done. case_bool_decide as Hne; [done|].
  intros [= <-]. split; [done|].
  destruct (exec (HandleEvent ev) s) as [[o s'] tr] eqn:Hex.
  destruct (exec_counters _ _ _ _ _ Hex) as (_ & Hle & _).
  unfold state_of in *; simpl in *. lia.
Qed.

Lemma begun_event_allocated r s z :
  begun_event (Build_served r (outcome_of (exec r s)) (effects_of (exec r s))) = Some z →
  allocation r s = Some z.
Proof.
  intros Hb. destruct (exec r s) as [[o s'] tr] eqn:Hex.
  destruct (exec_counters _ _ _ _ _ Hex) as (_ & _ & _ & He).
  unfold outcome_of, effects_of in Hb; simpl in Hb.
  destruct (He z Hb) as [-> Hs].
  unfold allocation. destruct r; try done. rewrite Hex. unfold state_of; simpl.
  rewrite bool_decide_eq_false_2 by lia. done.
Qed.

Lemma run_allocated rs : ∀ s,
  Forall (λ z, event_id s ≤ z) (allocated_events rs s)
  ∧ StronglySorted Z.lt (allocated_events rs s)
  ∧ begun_events (run rs s).1 ⊆ allocated_events rs s.
Proof.
  induction rs as [|r rs IH]; intros s; simpl.
  - split; [constructor|]. split; [constructor|]. done.
  - pose proof (begun_event_allocated r s) as Hba.
    pose proof (exec_allocation r s) as Hal.
    destruct (exec r s) as [[o s1] tr] eqn:Hex.
    destruct (exec_counters _ _ _ _ _ Hex) as (_ & Hle & _).
    destruct (IH s1) as (Fa & Sa & Sub). destruct (run rs s1) as [log s2].
    unfold outcome_of, effects_of, state_of in *. simpl in *.
    assert (Forall (λ z, event_id s ≤ z) (allocated_events rs s1)) as Fa'
      by (eapply Forall_impl; [exact Fa|]; simpl; intros; lia).
    unfold begun_events in *. simpl.
    destruct (allocation r s) as [z|] eqn:Hz.
    + destruct (Hal z eq_refl) as [-> Hlt].
      split; [constructor; [lia|done]|]. split.
      * constructor; [done|]. eapply Forall_impl; [exact Fa|]. simpl; intros; lia.
      * destruct (begun_event _) as [b|] eqn:Hb.
        -- specialize (Hba b eq_refl). simplify_eq.
           intros x [->|Hx]%elem_of_cons; [by left|]. right. by apply Sub.
        -- intros x Hx. right. by apply Sub.
    + split; [done|]. split; [done|].
      destruct (begun_event _) as [b|] eqn:Hb; [|done].
      by specialize (Hba b eq_refl).
Qed.

(** A [handle_event] records a channel in the continuation table only
    under the value it found in the counter, which it leaves one higher. *)
Lemma handle_event_records ev s k :
  events (state_of (handle_event ev s)) !! k ≠ events s !! k →
  k = event_id s ∧ event_id (state_of (handle_event ev s)) = event_id s + 1.
Proof.
  destruct (handle_event ev s) as [[o s'] tr] eqn:Hex. unfold state_of; simpl.
  unfold_methods; cbn in Hex. split_cases; try done.
  all: rewrite lookup_insert; case_decide; done.
Qed.

(** A [handle_event] that finds the lock free and the instance known
    takes an id from the counter and records a channel under it, however
    the call then ends. *)
Lemma handle_event_allocates ev s n ins :
  e_lock s = S n →
  instances s !! InstanceId ev = Some ins →
  event_id (state_of (handle_event ev s)) = event_id s + 1
  ∧ events (state_of (handle_event ev s)) !! event_id s = Some (length (channels s)).
Proof.
  intros Hl Hi. destruct (handle_event ev s) as [[o s'] tr] eqn:Hex.
  unfold state_of; simpl. unfold_methods; cbn in Hex.
  rewrite Hl in Hex. cbn in Hex. rewrite Hi in Hex. cbn in Hex.
  split_cases; by rewrite lookup_insert_eq.
Qed.

(** C7: in every run of requests from every state, the ids returned by
    [start_instance] are strictly increasing, hence never repeated, and so
    are the event ids returned by [handle_event].  So are the event ids
    taken from the counter, those of calls that then raised or blocked
    included: every returned event id is one of them, a [handle_event]
    records a channel only under the id it takes, and it takes one as soon
    as it finds the lock free and the instance known. *)
Theorem ids_strictly_increasing (rs : list request) (s : PluginServer) :
  StronglySorted Z.lt (started_ids (run rs s).1)
  ∧ NoDup (started_ids (run rs s).1)
  ∧ StronglySorted Z.lt (begun_events (run rs s).1)
  ∧ NoDup (begun_events (run rs s).1)
  ∧ StronglySorted Z.lt (allocated_events rs s)
  ∧ NoDup (allocated_events rs s)
  ∧ begun_events (run rs s).1 ⊆ allocated_events rs s
  ∧ (∀ ev s0 k,
       events (state_of (handle_event ev s0)) !! k ≠ events s0 !! k →
       k = event_id s0 ∧ allocation (HandleEvent ev) s0 = Some k)
  ∧ (∀ ev s0 n ins,
       e_lock s0 = S n → instances s0 !! InstanceId ev = Some ins →
       allocation (HandleEvent ev) s0 = Some (event_id s0)
       ∧ events (state_of (handle_event ev s0)) !! event_id s0
         = Some (length (channels s0))).
Proof.
  destruct (run_ids rs s) as (_ & _ & _ & _ & Si & Se).
  destruct (run_allocated rs s) as (_ & Sa & Sub).
  split; [done|]. split; [by apply StronglySorted_lt_NoDup|].
  split; [done|]. split; [by apply StronglySorted_lt_NoDup|].
  split; [done|]. split; [by apply StronglySorted_lt_NoDup|].
  split; [done|]. split.
  - intros ev s0 k Hk. destruct (handle_event_records ev s0 k Hk) as [-> Hid].
    split; [done|]. unfold allocation, exec.
    rewrite bool_decide_eq_false_2 by lia. done.
  - intros ev s0 n ins Hl Hi.
    destruct (handle_event_allocates ev s0 n ins Hl Hi) as [Hid Hev].
    split; [|done]. unfold allocation, exec.
    rewrite bool_decide_eq_false_2 by lia. done.
Qed.


(** Only a terminal resume of [eid] takes [eid] out of the continuation
    table. *)
Lemma exec_keeps_event r s o s' tr eid :
  exec r s = (o, s', tr) →
  is_Some (events s !! eid) →
  terminal_for eid (Build_served r o tr) = false →
  is_Some (events s' !! eid).
Proof.
  intros Hex He Ht. destruct r.
  8: { destruct (exec_sweep_cases ttl s) as [[_ Heq]|(m' & tr' & Heq & _)];
       rewrite Heq in Hex; by simplify_eq. }
  all: unfold terminal_for in Ht; unfold_methods; cbn in Hex.
  all: split_cases; try done.
  all: try (match goal with l : lock |- _ => destruct l end; simpl; done).
  all: try (destruct (decide (event_id s = eid)) as [->|];
            [rewrite lookup_insert_eq; by eexists | by rewrite lookup_insert_ne]).
  all: try (rewrite lookup_delete_ne; [done|]; intros ->;
            rewrite bool_decide_eq_true_2 in Ht by done; simpl in Ht; congruence).
  all: rewrite lookup_delete_ne; [done|].
  all: intros Heq; rewrite bool_decide_eq_true_2 in Ht by done; simpl in Ht; congruence.
Qed.

Lemma step_retires data is_error s r e s' tr :
  _step data is_error s = (Return (r, e), s', tr) →
  py_get "Data" r = Some MSG_RET →
  events s' !! EventId data = None.
Proof.
  intros Hex Hd. unfold_methods; cbn in Hex.
  split_cases; try done; try apply lookup_delete_eq.
Qed.



Lemma run_keeps_event eid rs : ∀ s,
  is_Some (events s !! eid) →
  Forall (λ x, terminal_for eid x = false) (run rs s).1 →
  is_Some (events (run rs s).2 !! eid).
Proof.
  induction rs as [|r rs IH]; intros s He Hall; simpl in *; [done|].
  destruct (exec r s) as [[o s1] tr] eqn:Hex.
  specialize (IH s1). destruct (run rs s1) as [log s2]. simpl in *.
  apply Forall_cons in Hall as [Ht Hall].
  apply IH; [|done]. by eapply exec_keeps_event.
Qed.

Lemma handle_event_registers ev s d eid e s' tr :
  handle_event ev s = (Return (PDict [("Data", d); ("EventId", PInt eid)], e), s', tr) →
  is_Some (events s' !! eid) ∧ event_id s' = eid + 1.
Proof.
  intros Hex. unfold_methods; cbn in Hex.
  split_cases. all: rewrite lookup_insert_eq; split; [by eexists|done].
Qed.

Lemma exec_event_stays_retired r s o s' tr eid :
  exec r s = (o, s', tr) →
  events s !! eid = None → eid < event_id s →
  events s' !! eid = None ∧ eid < event_id s'.
Proof.
  intros Hex He Hlt. destruct r.
  8: { destruct (exec_sweep_cases ttl s) as [[_ Heq]|(m' & tr' & Heq & _)];
       rewrite Heq in Hex; by simplify_eq. }
  all: unfold_methods; cbn in Hex.
  all: split_cases; try done.
  all: try (match goal with l : lock |- _ => destruct l end; simpl; done).
  all: try (split; [|lia]).
  all: try (rewrite lookup_insert_ne by lia; done).
  all: try (rewrite lookup_delete_ne; [done|]; intros Heq; congruence).
Qed.

Lemma run_event_stays_retired eid rs : ∀ s,
  events s !! eid = None → eid < event_id s →
  events (run rs s).2 !! eid = None.
Proof.
  induction rs as [|r rs IH]; intros s He Hlt; simpl in *; [done|].
  destruct (exec r s) as [[o s1] tr] eqn:Hex.
  specialize (IH s1). destruct (run rs s1) as [log s2]. simpl in *.
  destruct (exec_event_stays_retired _ _ _ _ _ _ Hex He Hlt). by apply IH.
Qed.

Lemma step_keeps_counter data is_error s :
  event_id (state_of (_step data is_error s)) = event_id s.
Proof.
  destruct (_step data is_error s) as [[o s'] tr] eqn:Hex. unfold state_of; simpl.
  unfold_methods; cbn in Hex. split_cases; done.
Qed.

Lemma handle_event_lock_held ev s :
  e_lock s = O → handle_event ev s = (Block, s, [Acquire E_lock]).
Proof.
  intros Hl. unfold handle_event, locked_by, acquire, bind, get, emit, block. simpl.
  rewrite Hl. reflexivity.
Qed.

(** [handle_event] when the lock is free, the instance and the phase are
    known and a worker runs the handler to its first item. *)
Lemma handle_event_started
    (s : PluginServer) (ev : event) (ins : Instance.t) (n : nat)
    (cls_phase : handler) (item : pyval) (st : chan_state) :
  e_lock s = S n →
  instances s !! InstanceId ev = Some ins →
  Instance.cls ins (EventName ev) = Some cls_phase →
  _handler_event_func cls_phase = Some (item, st) →
  outcome_of (handle_event ev s)
  = Return (PDict [ ("Data", item); ("EventId", PInt (event_id s)) ], PNone)
  ∧ effects_of (handle_event ev s)
    = [Acquire E_lock; Spawn (length (channels s)) (multiprocess s);
       Recv (length (channels s)); Release E_lock]
  ∧ events (state_of (handle_event ev s))
    = <[event_id s := length (channels s)]> (events s)
  ∧ channels (state_of (handle_event ev s)) = channels s ++ [st]
  ∧ event_id (state_of (handle_event ev s)) = event_id s + 1
  ∧ e_lock (state_of (handle_event ev s)) = e_lock s.
Proof.
  intros Hl Hi Hc Hw.
  destruct s as [pl insts iid il ev0 eid el mp chs t]; simpl in *; subst.
  unfold_methods. unfold outcome_of, state_of, effects_of. simpl. rewrite Hi. simpl.
  assert (∀ x y : chan_state, <[length chs := y]> (<[length chs := x]> (chs ++ [NoWorker]))
                              = chs ++ [y]) as Hins.
  { intros x y. rewrite list_insert_insert_eq.
    replace (length chs) with (length chs + 0)%nat at 1 by lia.
    by rewrite insert_app_r. }
  destruct mp; simpl; rewrite Hc; simpl.
  all: rewrite list_lookup_insert_eq by (rewrite length_app; simpl; lia).
  all: simpl; rewrite Hw; simpl; rewrite Hins; done.
Qed.

(** A resume of an event whose worker waits for a result. *)
Lemma step_awaiting
    (s : PluginServer) (data : step_data) (is_error : bool) (ch : nat)
    (k : pyval * pyval → handler) (item : pyval) (st : chan_state) :
  events s !! EventId data = Some ch →
  channels s !! ch = Some (Awaiting k) →
  _handler_event_func
    (k (if is_error then (PNone, default PNone (Data data))
        else (default PNone (Data data), PNone))) = Some (item, st) →
  _step data is_error s
  = (Return (PDict [ ("Data", item); ("EventId", PInt (EventId data)) ], PNone),
     set_events (if is_MSG_RET item then delete (EventId data) else id)
       (set_channels (<[ch := st]>) s),
     [Send ch (if is_error then (PNone, default PNone (Data data))
               else (default PNone (Data data), PNone)); Recv ch]).
Proof.
  intros He Hch Hw.
  assert (ch < length (channels s))%nat as Hlt by (by eapply lookup_lt_Some).
  destruct s as [pl insts iid il ev0 eid el mp chs t]; simpl in *.
  unfold_methods. simpl. rewrite He. simpl.
  destruct is_error; simpl; rewrite Hch; simpl.
  all: rewrite list_lookup_insert_eq by done; simpl.
  all: rewrite Hw; simpl.
  all: destruct (is_MSG_RET item); simpl; unfold set_events, set_channels; simpl.
  all: rewrite list_insert_insert_eq; reflexivity.
Qed.

Lemma exec_resume eid p s :
  exec (resume eid p) s = _step {| EventId := eid; Data := p.1 |} p.2 s.
Proof. destruct p as [d []]; reflexivity. Qed.

(** The conversation on one event, resume by resume: every payload but
    the last is answered by the next call and keeps the event in the
    table, the last is answered by the sentinel and takes it out. *)
Lemma converse_run eid ch payloads : ∀ k s calls,
  events s !! eid = Some ch →
  channels s !! ch = Some (Awaiting k) →
  converse payloads k = Some calls →
  map out (run (resume eid <$> payloads) s).1 = resumed eid <$> (calls ++ [MSG_RET])
  ∧ (∀ n, (n < length payloads)%nat →
       is_Some (events (run (take n (resume eid <$> payloads)) s).2 !! eid))
  ∧ events (run (resume eid <$> payloads) s).2 !! eid = None.
Proof.
  induction payloads as [|p ps IH]; intros k s calls He Hc Hconv; [done|].
  assert (ch < length (channels s))%nat as Hlt by (by eapply lookup_lt_Some).
  cbn [converse] in Hconv. unfold result_of in Hconv.
  cbn [fmap list_fmap run]. rewrite exec_resume.
  destruct (k _) as [|e|call k'] eqn:Hk; [|done|].
  - destruct ps; [|done]. simplify_eq.
    erewrite (step_awaiting s _ _ ch k MSG_RET Finished); [|done|done|].
    2: { simpl. destruct (p.2); simpl in *; by rewrite Hk. }
    simpl. split; [done|]. split; [|apply lookup_delete_eq].
    intros [|n] Hn; [by eexists|simpl in Hn; lia].
  - destruct (is_MSG_RET call) eqn:Hret; [done|].
    destruct (converse ps k') as [calls'|] eqn:Hps; [|done]. simplify_eq/=.
    erewrite (step_awaiting s _ _ ch k call (Awaiting k')); [|done|done|].
    2: { simpl. destruct (p.2); simpl in *; by rewrite Hk. }
    rewrite Hret.
    destruct (IH k' (set_events id (set_channels (<[ch := Awaiting k']>) s)) calls')
      as (Hout & Hpre & Hend); [done| |done|].
    { simpl. by apply list_lookup_insert_eq. }
    destruct (run (resume eid <$> ps) _) as [log s2] eqn:Hrun. simpl in *.
    split; [by rewrite Hout|]. split; [|done].
    intros [|n] Hn; [by eexists|]. cbn [take run]. rewrite exec_resume.
    erewrite (step_awaiting s _ _ ch k call (Awaiting k')); [|done|done|].
    2: { simpl. destruct (p.2); simpl in *; by rewrite Hk. }
    rewrite Hret. specialize (Hpre n ltac:(lia)).
    destruct (run (take n (resume eid <$> ps)) _) as [log' s'] eqn:Hrun'. done.
Qed.

(** C6: when [handle_event] returns event id [eid], the continuation
    table holds [eid]; it still holds it after any requests none of which
    is a resume of [eid] observing the terminal sentinel; and once a resume
    of [eid] returns the sentinel, the table does not hold [eid], then or
    after any further requests.  Such resumes take place: when the handler
    answers the payloads of a sequence of resumes of [eid] by further
    calls and returns on the last, the resumes return those calls and then
    the sentinel, the table holds [eid] before each of them and no longer
    holds it after the last. *)
Theorem continuation_lifetime (s0 : PluginServer) (ev : event) (d : pyval) (eid : Z) :
  outcome_of (handle_event ev s0)
  = Return (PDict [("Data", d); ("EventId", PInt eid)], PNone) →
  let s1 := state_of (handle_event ev s0) in
  is_Some (events s1 !! eid)
  ∧ (∀ rs,
      let s2 := (run rs s1).2 in
      (Forall (λ x, terminal_for eid x = false) (run rs s1).1 →
       is_Some (events s2 !! eid))
      ∧ ∀ data is_error r e,
          EventId data = eid →
          outcome_of (_step data is_error s2) = Return (r, e) →
          py_get "Data" r = Some MSG_RET →
          let s3 := state_of (_step data is_error s2) in
          events s3 !! eid = None
          ∧ ∀ rs', events (run rs' s3).2 !! eid = None)
  ∧ (∀ ins k payloads calls,
       instances s0 !! InstanceId ev = Some ins →
       Instance.cls ins (EventName ev) = Some (HCall d k) →
       converse payloads k = Some calls →
       let resumes := resume eid <$> payloads in
       map out (run resumes s1).1 = resumed eid <$> (calls ++ [MSG_RET])
       ∧ (∀ n, (n < length payloads)%nat →
            is_Some (events (run (take n resumes) s1).2 !! eid))
       ∧ events (run resumes s1).2 !! eid = None).
Proof.
  intros Hb s1. subst s1. split; [|split].
  - destruct (handle_event ev s0) as [[o s1] tr] eqn:Hex.
    unfold outcome_of, state_of in *; simpl in *. subst o.
    by destruct (handle_event_registers _ _ _ _ _ _ _ Hex) as [Hin Hid].
  - destruct (handle_event ev s0) as [[o s1] tr] eqn:Hex.
    unfold outcome_of, state_of in *; simpl in *. subst o.
    destruct (handle_event_registers _ _ _ _ _ _ _ Hex) as [Hin Hid].
    intros rs. split.
    + by apply run_keeps_event.
    + intros data is_error r e <- Ho Hd.
      pose proof (step_keeps_counter data is_error (run rs s1).2) as Hc.
      destruct (_step data is_error (run rs s1).2) as [[o3 s3] tr3] eqn:Hst.
      unfold state_of in Hc. simpl in *. subst o3.
      assert (events s3 !! EventId data = None) as Hgone by (by eapply step_retires).
      split; [done|]. intros rs'. apply run_event_stays_retired; [done|].
      destruct (run_ids rs s1) as (_ & Hle & _). lia.
  - intros ins k payloads calls Hi Hc Hconv.
    destruct (e_lock s0) as [|n] eqn:Hl.
    { rewrite handle_event_lock_held in Hb by done. done. }
    destruct (handle_event_started s0 ev ins n (HCall d k) d (Awaiting k) Hl Hi Hc eq_refl)
      as (Ho & _ & Hev & Hch & _).
    rewrite Hb in Ho. simplify_eq.
    apply (converse_run (event_id s0) (length (channels s0)) payloads k); [| |done].
    + rewrite Hev. apply lookup_insert_eq.
    + rewrite Hch. rewrite lookup_app_r by done. by rewrite Nat.sub_diag.
Qed.

End Runs.

(** ** Close hooks, locks and last-active times *)

Section Hooks.
Context `{JsonDecoder}.

Lemma logs_without_close_hook tr iid : Forall is_log tr → CloseCb iid ∉ tr.
Proof.
  intros Hlog Hin. eapply Forall_forall in Hlog; [|exact Hin].
  destruct Hlog as (lv & msg & Heq). discriminate.
Qed.

(** An id below the counter that is not in the table stays out of it,
    and no request runs its close hook. *)
Lemma exec_no_close_hook r s o s' tr iid :
  exec r s = (o, s', tr) →
  instances s !! iid = None → iid < instance_id s →
  instances s' !! iid = None ∧ iid < instance_id s' ∧ CloseCb iid ∉ tr.
Proof.
  intros Hex Hi Hlt. destruct r.
  8: { destruct (exec_sweep_cases ttl s) as [[_ Heq]|(m' & tr' & Heq & Hlog & Hm)];
       rewrite Heq in Hex; simplify_eq; simpl.
       - split; [done|]. split; [done|].
         intros [?|?%elem_of_nil]%elem_of_cons; done.
       - rewrite Hm, Hi. split; [done|]. split; [done|].
         pose proof (logs_without_close_hook tr' iid Hlog).
         intros [?|[?|[?|?%elem_of_nil]%elem_of_cons]%elem_of_app]%elem_of_cons; done. }
  all: unfold_methods; cbn in Hex.
  all: split_cases.
  all: try (match goal with l : lock |- _ => destruct l end; simpl).
  all: repeat split; try done; try lia.
  all: try (intros Hin; repeat (apply elem_of_cons in Hin as [Hin|Hin]; [congruence|]);
            by apply elem_of_nil in Hin).
  all: try (rewrite lookup_insert_ne by lia; done).
  all: try (rewrite lookup_alter_ne by congruence; done).
  all: try (rewrite lookup_delete; case_decide; done).
  all: by repeat (apply lookup_alter_None).
Qed.


Lemma exec_ids_below_counter r s o s' tr :
  exec r s = (o, s', tr) → ids_below_counter s → ids_below_counter s'.
Proof.
  intros Hex Hwf k [x Hk].
  destruct (instances s !! k) as [y|] eqn:Hy.
  - destruct (exec_counters _ _ _ _ _ Hex) as (Hle & _).
    specialize (Hwf k (ex_intro _ y Hy)). lia.
  - destruct (decide (k < instance_id s)) as [Hlt|Hge].
    + destruct (exec_no_close_hook _ _ _ _ _ k Hex Hy Hlt) as (Hn & _). congruence.
    + revert Hk. clear Hwf. destruct r.
      8: { destruct (exec_sweep_cases ttl s) as [[_ Heq]|(m' & tr' & Heq & Hlog & Hm)];
           rewrite Heq in Hex; simplify_eq; simpl; [congruence|].
           rewrite Hm, Hy. done. }
      all: unfold_methods; cbn in Hex.
      all: split_cases.
      all: try (match goal with l : lock |- _ => destruct l end; simpl).
      all: try congruence.
      all: try (rewrite !lookup_alter_None; congruence).
      all: try (rewrite lookup_delete; case_decide; congruence).
      all: try (rewrite lookup_insert; case_decide; [intros; lia | congruence]).
      all: rewrite !lookup_alter_ne by congruence; congruence.
Qed.

Lemma run_ids_below_counter rs : ∀ s,
  ids_below_counter s → ids_below_counter (run rs s).2.
Proof.
  induction rs as [|r rs IH]; intros s Hwf; simpl; [done|].
  destruct (exec r s) as [[o s1] tr] eqn:Hex.
  specialize (IH s1). destruct (run rs s1) as [log s2]. simpl in *.
  apply IH. by eapply exec_ids_below_counter.
Qed.

Lemma init_ids_below_counter loaded mp t0 : ids_below_counter (__init__ loaded mp t0).
Proof. intros k [x Hk]. simpl in Hk. by rewrite lookup_empty in Hk. Qed.



Lemma held_during_io_logs held tr rest :
  Forall is_log tr → held_during_io held (tr ++ rest) = held_during_io held rest.
Proof.
  induction 1 as [|a tr (lv & msg & ->) _ IH]; simpl; done.
Qed.

(** C3: the instance table lock is never held during channel I/O, and
    no request other than [handle_event] performs channel I/O with a lock
    held; a [handle_event] call that reaches its blocking receive holds the
    continuation table lock there. *)
Theorem locks_during_channel_io (r : request) (s : PluginServer) :
  let tr := effects_of (exec r s) in
  (I_lock ∉ held_during_io [] tr)
  ∧ match r with
    | HandleEvent _ => ∀ ch, Recv ch ∈ tr → held_during_io [] tr = [E_lock]
    | _ => held_during_io [] tr = []
    end.
Proof.
  destruct (exec r s) as [[o s'] tr] eqn:Hex. unfold effects_of; simpl.
  destruct r.
  8: { destruct (exec_sweep_cases ttl s) as [[_ Heq]|(m' & tr' & Heq & Hlog & Hm)];
       rewrite Heq in Hex; simplify_eq; simpl.
       - split; [apply not_elem_of_nil|done].
       - rewrite held_during_io_logs by done. simpl.
         split; [apply not_elem_of_nil|done]. }
  all: unfold_methods; cbn in Hex.
  all: split_cases.
  all: try (match goal with l : lock |- _ => destruct l end; simpl).
  all: split; try done; try apply not_elem_of_nil.
  all: try (intros [?|?%elem_of_nil]%elem_of_cons; done).
  all: try (intros ch Hin; repeat (apply elem_of_cons in Hin as [Hin|Hin]; [congruence|]);
            by apply elem_of_nil in Hin).
Qed.

Lemma alter_twice_insert (m : gmap Z Instance.t) k t ins :
  m !! k = Some ins →
  alter (Instance.reset_expire_ts t) k (alter (Instance.reset_expire_ts t) k m)
  = <[k := Instance.reset_expire_ts t ins]> m.
Proof.
  intros Hk. apply map_eq. intros j. destruct (decide (j = k)) as [->|Hne].
  - rewrite lookup_alter_eq, lookup_alter_eq, Hk, lookup_insert_eq. done.
  - rewrite !lookup_alter_ne, lookup_insert_ne by done. done.
Qed.

Lemma alter_once_insert (m : gmap Z Instance.t) k t ins :
  m !! k = Some ins →
  alter (Instance.reset_expire_ts t) k m = <[k := Instance.reset_expire_ts t ins]> m.
Proof.
  intros Hk. apply map_eq. intros j. destruct (decide (j = k)) as [->|Hne].
  - rewrite lookup_alter_eq, Hk, lookup_insert_eq. done.
  - rewrite !lookup_alter_ne, lookup_insert_ne by done. done.
Qed.

(** A resume touches neither the instance table, the clock nor the
    instance table lock. *)
Lemma step_frame data is_error s :
  instances (state_of (_step data is_error s)) = instances s
  ∧ now (state_of (_step data is_error s)) = now s
  ∧ i_lock (state_of (_step data is_error s)) = i_lock s.
Proof.
  destruct (_step data is_error s) as [[o s'] tr] eqn:Hex. unfold state_of; simpl.
  unfold_methods; cbn in Hex. split_cases; done.
Qed.

(** C2: [handle_event] sets the last-active time of the instance it
    runs on to the current time, whatever way the call ends once the
    instance is found; a resume, [step] or [step_error], leaves every
    entry of the instance table as it was.  So a round of the sweeper
    after a resume decides as it would have without the resume: in every
    state it evicts exactly the entries whose last-active time, as the
    last [handle_event] left it, is more than the ttl in the past; in
    particular it evicts such an entry however recently an event on it
    was resumed. *)
Theorem last_active_refreshed_by_begin_only
    (s : PluginServer) (ev : event) (ins : Instance.t) (n : nat) :
  e_lock s = S n →
  instances s !! InstanceId ev = Some ins →
  (instances (state_of (handle_event ev s))
   = <[InstanceId ev := Instance.reset_expire_ts (now s) ins]> (instances s))
  ∧ (∀ data is_error s1,
       instances (state_of (_step data is_error s1)) = instances s1)
  ∧ (∀ data is_error s1 m ttl k,
       i_lock s1 = S m →
       instances (state_of (sweep ttl (state_of (_step data is_error s1)))) !! k
       = keep_fresh ttl (now s1 + Z.max 0 ttl) (instances s1 !! k))
  ∧ (∀ data is_error s1 m ttl k ins1,
       i_lock s1 = S m →
       instances s1 !! k = Some ins1 →
       ttl < now s1 + Z.max 0 ttl - Instance.last_used_time ins1 →
       instances (state_of (sweep ttl (state_of (_step data is_error s1)))) !! k = None).
Proof.
  intros Hl Hi.
  assert (∀ data is_error s1 m ttl k,
            i_lock s1 = S m →
            instances (state_of (sweep ttl (state_of (_step data is_error s1)))) !! k
            = keep_fresh ttl (now s1 + Z.max 0 ttl) (instances s1 !! k)) as Hsweep.
  { intros data is_error s1 m ttl k Hl1.
    destruct (step_frame data is_error s1) as (Hins & Hnow & Hil).
    destruct (sweep_free ttl (state_of (_step data is_error s1)) m)
      as (m' & tr & Heq & _ & Hm); [congruence|].
    rewrite Heq. unfold state_of at 1. simpl. rewrite Hm. by rewrite Hnow, Hins. }
  split; [|split; [apply step_frame|split; [exact Hsweep|]]].
  2: { intros data is_error s1 m ttl k ins1 Hl1 Hk Hidle.
       rewrite (Hsweep data is_error s1 m ttl k Hl1), Hk.
       unfold keep_fresh, Instance.is_expired.
       by rewrite (proj2 (Z.ltb_lt _ _) Hidle). }
  clear Hsweep.
  destruct (handle_event ev s) as [[o s'] tr] eqn:Hex. unfold state_of; simpl.
  unfold_methods; cbn in Hex. rewrite Hl in Hex. cbn in Hex. rewrite Hi in Hex.
  cbn in Hex. split_cases.
  all: by (apply alter_twice_insert || apply alter_once_insert).
Qed.

End Hooks.

(** No round of the sweeper loop runs a close hook. *)
Lemma rounds_without_close_hook ttl rounds : ∀ s j,
  CloseCb j ∉ effects_of (_clear_expired_plugins ttl rounds s).
Proof.
  induction rounds as [|n IH]; intros s j; simpl.
  - apply not_elem_of_nil.
  - unfold bind. destruct (i_lock s) as [|k] eqn:Hl.
    + rewrite sweep_blocked by done. unfold effects_of; simpl.
      intros [?|?%elem_of_nil]%elem_of_cons; done.
    + destruct (sweep_free ttl s k Hl) as (m' & tr & Heq & Hlog & _). rewrite Heq.
      specialize (IH (set_now (now s + Z.max 0 ttl) (set_instances (λ _, m') s)) j).
      destruct (_clear_expired_plugins ttl n _) as [[o s2] t2].
      unfold effects_of in *; simpl in *.
      pose proof (logs_without_close_hook tr j Hlog).
      intros [?|[[?|[?|?%elem_of_nil]%elem_of_cons]%elem_of_app|?]%elem_of_app]%elem_of_cons;
        done.
Qed.


Lemma last_active_refreshed_by_begin_only_witness :
  e_lock idle = 1%nat
  ∧ instances idle !! 0 = Some sample_instance
  ∧ (instances (state_of (handle_event {| InstanceId := 0; EventName := "access" |} idle))
     = <[0 := Instance.reset_expire_ts 1 sample_instance]> (instances idle))
  ∧ (∀ data is_error s1, instances (state_of (_step data is_error s1)) = instances s1)
  ∧ (∀ data is_error s1 m ttl k,
       i_lock s1 = S m →
       instances (state_of (sweep ttl (state_of (_step data is_error s1)))) !! k
       = keep_fresh ttl (now s1 + Z.max 0 ttl) (instances s1 !! k))
  ∧ (∀ data is_error s1 m ttl k ins1,
       i_lock s1 = S m →
       instances s1 !! k = Some ins1 →
       ttl < now s1 + Z.max 0 ttl - Instance.last_used_time ins1 →
       instances (state_of (sweep ttl (state_of (_step data is_error s1)))) !! k = None).
Proof.
  split; [reflexivity|]. split; [reflexivity|].
  exact (last_active_refreshed_by_begin_only idle
           {| InstanceId := 0; EventName := "access" |} sample_instance 0%nat
           eq_refl eq_refl).
Defined.

Lemma continuation_lifetime_witness :
  let ev := {| InstanceId := 0; EventName := "access" |} in
  let s1 := state_of (handle_event ev serving) in
  let resumes := resume 0 <$> [ (None, false); (Some (PStr "boom"), true) ] in
  outcome_of (handle_event ev serving)
  = Return (PDict [("Data", first_call); ("EventId", PInt 0)], PNone)
  ∧ instances serving !! 0 = Some sample_instance
  ∧ Instance.cls sample_instance "access" = Some (HCall first_call then_header)
  ∧ converse [ (None, false); (Some (PStr "boom"), true) ] then_header
    = Some [ PDict [("Method", PStr "kong.response.set_header")] ]
  ∧ is_Some (events s1 !! 0)
  ∧ map out (run (H := sample_decoder) resumes s1).1
    = [ resumed 0 (PDict [("Method", PStr "kong.response.set_header")]);
        resumed 0 MSG_RET ]
  ∧ is_Some (events (run (H := sample_decoder) (take 1 resumes) s1).2 !! 0)
  ∧ events (run (H := sample_decoder) resumes s1).2 !! 0 = None.
Proof.
  intros ev s1 resumes.
  assert (outcome_of (handle_event ev serving)
          = Return (PDict [("Data", first_call); ("EventId", PInt 0)], PNone)) as Hb
    by reflexivity.
  split; [exact Hb|]. split; [reflexivity|]. split; [reflexivity|].
  split; [reflexivity|].
  destruct (continuation_lifetime (H := sample_decoder) serving ev first_call 0 Hb)
    as (Hin & _ & Hconv).
  split; [exact Hin|].
  destruct (Hconv sample_instance then_header
              [ (None, false); (Some (PStr "boom"), true) ]
              [ PDict [("Method", PStr "kong.response.set_header")] ]
              eq_refl eq_refl eq_refl) as (Hout & Hpre & Hend).
  split; [exact Hout|]. split; [exact (Hpre 1%nat ltac:(simpl; lia))|exact Hend].
Defined.

(** ** Sample runs *)

(** Two starts hand out ids 0 and 1; the [access] phase makes two outward
    calls, the second resume returns the sentinel and retires event 0, and
    a third resume finds no such event. *)
Example sample_session :
  map out (run (H := sample_decoder)
             [start_rate_limit; start_rate_limit; begin_access;
              resume_0; resume_0; resume_0] fresh_server).1
  = [ Return (PDict [ ("Name", PStr "rate-limit"); ("Id", PInt 0);
                      ("Config", PDict []); ("StartTime", PTime 0) ], PNone);
      Return (PDict [ ("Name", PStr "rate-limit"); ("Id", PInt 1);
                      ("Config", PDict []); ("StartTime", PTime 0) ], PNone);
      Return (PDict [ ("Data", first_call); ("EventId", PInt 0) ], PNone);
      Return (PDict [ ("Data", PDict [("Method", PStr "kong.response.set_header")]);
                      ("EventId", PInt 0) ], PNone);
      Return (PDict [ ("Data", MSG_RET); ("EventId", PInt 0) ], PNone);
      Raise (PluginServerException "event id 0 not found") ].
Proof. reflexivity. Qed.

(** [handle_event] receives the first message of the worker between the
    acquire and the release of the continuation table lock. *)
Lemma handle_event_receives_under_lock_counterexample :
  effects_of (handle_event {| InstanceId := 0; EventName := "access" |} serving)
  = [Acquire E_lock; Spawn 0 false; Recv 0; Release E_lock]
  ∧ held_during_io []
      (effects_of (handle_event {| InstanceId := 0; EventName := "access" |} serving))
    ≠ [].
Proof. split; [reflexivity|]. vm_compute. discriminate. Qed.

(** Event 0 began at time 0 on instance 0 and is resumed at time 100: the
    resume returns the next outward call, the event is still in the
    continuation table, and the last-active time of instance 0 is still 0.
    The next round of a sweeper with a ttl of 60 evicts the instance, which
    a refresh at time 100 would have prevented. *)
Lemma resume_leaves_instance_idle_counterexample :
  out <$> (run (H := sample_decoder) [Elapse 100; resume_0] in_flight).1 !! 1%nat
  = Some (Return (PDict [ ("Data", PDict [("Method", PStr "kong.response.set_header")]);
                          ("EventId", PInt 0) ], PNone))
  ∧ is_Some (events resumed_late !! 0)
  ∧ now resumed_late = 100
  ∧ Instance.last_used_time <$> instances resumed_late !! 0 = Some 0
  ∧ instances (state_of (sweep 60 resumed_late)) !! 0 = None
  ∧ Instance.is_expired 60 (now resumed_late + Z.max 0 60)
      (Instance.reset_expire_ts (now resumed_late) sample_instance) = false.
Proof.
  split; [reflexivity|]. split; [by eexists|]. repeat split; reflexivity.
Qed.

(** * Further properties *)

(** ** Starting, closing, beginning and resuming *)

Section StartX.
Context `{JsonDecoder}.

(** X1: a [start_instance] that finds the lock free, the name registered,
    a payload that decodes and an instantiation hook that succeeds returns
    the descriptor with the id the counter held, leaves the counter one
    higher and the other entries as they were, and [instance_status] of the
    new id then returns a descriptor with that id and that configuration. *)
Theorem start_instance_then_status
    (s : PluginServer) (cfg : start_cfg) (n : nat) (plugin : Mod.t)
    (config : pyval) (obj : string → option handler) :
  i_lock s = S n →
  plugins s !! Name cfg = Some plugin →
  json_loads (Config cfg) = Some config →
  Mod.cls plugin config = inr obj →
  let s' := state_of (start_instance cfg s) in
  outcome_of (start_instance cfg s)
  = Return (PDict [ ("Name", PStr (Name cfg)); ("Id", PInt (instance_id s));
                    ("Config", config); ("StartTime", PTime (now s)) ], PNone)
  ∧ instance_id s' = instance_id s + 1
  ∧ i_lock s' = i_lock s
  ∧ (∀ k, k ≠ instance_id s → instances s' !! k = instances s !! k)
  ∧ ∃ d, instance_status (instance_id s) s' = (Return (d, PNone), s', [])
         ∧ py_get "Id" d = Some (PInt (instance_id s))
         ∧ py_get "Config" d = Some config.
Proof.
  intros Hl Hp Hj Hc. simpl.
  destruct s as [pl ins iid il ev eid el mp chs t]; simpl in *; subst.
  unfold start_instance, locked_by, new, loads, format, logger_info, acquire, release,
    time_time, try_except, bind, ret, raise, get, modify, emit.
  simpl. rewrite Hp. simpl. rewrite Hj. simpl. rewrite Hc. simpl.
  unfold outcome_of, state_of. simpl.
  split; [reflexivity|]. split; [reflexivity|]. split; [reflexivity|].
  split; [intros k Hk; by rewrite lookup_insert_ne|].
  unfold instance_status, bind, get, ret. simpl. rewrite lookup_insert_eq.
  eexists. split; [reflexivity|]. split; reflexivity.
Qed.

End StartX.


(** X4: [handle_event] on an instance id that is not in the table raises
    [PluginServerException] with the id in its message; no event id is
    consumed, the lock is released and the server is as before. *)
Theorem handle_event_unknown_instance (s : PluginServer) (ev : event) (n : nat) :
  e_lock s = S n →
  instances s !! InstanceId ev = None →
  handle_event ev s
  = (Raise (PluginServerException
              ("instance id " +:+ pretty (InstanceId ev) +:+ " not found")),
     s, [Acquire E_lock; Release E_lock]).
Proof.
  intros Hl Hi. destruct s; simpl in *; subst.
  unfold_methods. simpl. rewrite Hi. reflexivity.
Qed.

(** X5: [handle_event] for a phase the plugin object does not have
    raises [AttributeError] only after it has consumed an event id and
    recorded a channel under it: the entry stays in the continuation table,
    with no worker behind the channel. *)
Theorem handle_event_unknown_phase
    (s : PluginServer) (ev : event) (ins : Instance.t) (n : nat) :
  e_lock s = S n →
  instances s !! InstanceId ev = Some ins →
  Instance.cls ins (EventName ev) = None →
  let s' := state_of (handle_event ev s) in
  outcome_of (handle_event ev s) = Raise (AttributeError (EventName ev))
  ∧ event_id s' = event_id s + 1
  ∧ events s' !! event_id s = Some (length (channels s))
  ∧ channels s' !! length (channels s) = Some NoWorker
  ∧ e_lock s' = e_lock s.
Proof.
  intros Hl Hi Hc. simpl. destruct s as [pl insts iid il ev' eid el mp chs t]; simpl in *; subst.
  unfold_methods. unfold outcome_of, state_of. simpl. rewrite Hi. simpl.
  destruct mp; simpl; rewrite Hc; simpl.
  all: split; [reflexivity|]; split; [reflexivity|].
  all: split; [apply lookup_insert_eq|].
  all: split; [|reflexivity].
  all: rewrite lookup_app_r by done; by rewrite Nat.sub_diag.
Qed.

(** The continuation table lock, once at zero, stays at zero. *)
Lemma exec_e_lock_stuck `{JsonDecoder} r s o s' tr :
  exec r s = (o, s', tr) → e_lock s = O → e_lock s' = O.
Proof.
  intros Hex Hl. destruct r.
  8: { destruct (exec_sweep_cases ttl s) as [[_ Heq]|(m' & tr' & Heq & _)];
       rewrite Heq in Hex; by simplify_eq. }
  all: unfold_methods; cbn in Hex.
  all: split_cases; try done.
  all: try (match goal with l : lock |- _ => destruct l end; simpl; done).
Qed.

Lemma run_e_lock_stuck `{JsonDecoder} rs : ∀ s, e_lock s = O → e_lock (run rs s).2 = O.
Proof.
  induction rs as [|r rs IH]; intros s Hl; simpl; [done|].
  destruct (exec r s) as [[o s1] tr] eqn:Hex.
  specialize (IH s1). destruct (run rs s1) as [log s2]. simpl in *.
  apply IH. by eapply exec_e_lock_stuck.
Qed.

(** X6: when the handler raises before its first outward call, the
    worker never puts anything, [handle_event] blocks with the continuation
    table lock held, and from then on every [handle_event], whatever
    requests come in between, blocks on that lock. *)
Theorem raising_handler_wedges_begin `{JsonDecoder}
    (s : PluginServer) (ev : event) (ins : Instance.t) (e : exn) :
  e_lock s = 1%nat →
  instances s !! InstanceId ev = Some ins →
  Instance.cls ins (EventName ev) = Some (HRaise e) →
  let s' := state_of (handle_event ev s) in
  outcome_of (handle_event ev s) = Block
  ∧ e_lock s' = O
  ∧ ∀ rs ev',
      let s2 := (run rs s').2 in
      handle_event ev' s2 = (Block, s2, [Acquire E_lock]).
Proof.
  intros Hl Hi Hc. simpl.
  assert (outcome_of (handle_event ev s) = Block
          ∧ e_lock (state_of (handle_event ev s)) = O) as [Hb Hz].
  { destruct s as [pl insts iid il ev0 eid el mp chs t]; simpl in *; subst.
    unfold_methods. unfold outcome_of, state_of. simpl. rewrite Hi. simpl.
    destruct mp; simpl; rewrite Hc; simpl.
    all: rewrite list_lookup_insert_eq by (rewrite length_app; simpl; lia).
    all: simpl; done. }
  split; [done|]. split; [done|]. intros rs ev'.
  pose proof (run_e_lock_stuck rs _ Hz) as Hz2.
  destruct (run rs (state_of (handle_event ev s))) as [log s2]. simpl in *.
  unfold handle_event, locked_by, acquire, bind, get, emit, block. simpl.
  rewrite Hz2. reflexivity.
Qed.

(** X7: in the cooperative backend, [handle_event] on a known instance
    and phase returns the first item the worker puts on the channel, the
    first outward call or the sentinel when the handler makes none, with
    the event id the counter held; either way the channel stays recorded
    under that id, and the lock is released. *)
Theorem handle_event_first_item
    (s : PluginServer) (ev : event) (ins : Instance.t) (n : nat)
    (cls_phase : handler) (item : pyval) (st : chan_state) :
  multiprocess s = false →
  e_lock s = S n →
  instances s !! InstanceId ev = Some ins →
  Instance.cls ins (EventName ev) = Some cls_phase →
  _handler_event_func cls_phase = Some (item, st) →
  let s' := state_of (handle_event ev s) in
  outcome_of (handle_event ev s)
  = Return (PDict [ ("Data", item); ("EventId", PInt (event_id s)) ], PNone)
  ∧ effects_of (handle_event ev s)
    = [Acquire E_lock; Spawn (length (channels s)) false;
       Recv (length (channels s)); Release E_lock]
  ∧ events s' = <[event_id s := length (channels s)]> (events s)
  ∧ channels s' = channels s ++ [st]
  ∧ event_id s' = event_id s + 1
  ∧ e_lock s' = e_lock s.
Proof.
  intros Hmp Hl Hi Hc Hw. simpl.
  destruct (handle_event_started s ev ins n cls_phase item st Hl Hi Hc Hw)
    as (Ho & Hfx & Hev & Hch & Hid & Hlk).
  rewrite Hmp in Hfx. by repeat split.
Qed.

Lemma step_unknown_event (s : PluginServer) (data : step_data) (is_error : bool) :
  events s !! EventId data = None →
  _step data is_error s
  = (Raise (PluginServerException
              ("event id " +:+ pretty (EventId data) +:+ " not found")), s, []).
Proof.
  intros He. unfold _step, bind, get, format, raise. rewrite He. reflexivity.
Qed.

(** X8: after a resume has returned the sentinel for an event id, any
    further [step] or [step_error] on that id raises
    [PluginServerException] and changes nothing. *)
Theorem resume_after_retirement
    (s : PluginServer) (data : step_data) (is_error : bool) (r e : pyval) :
  outcome_of (_step data is_error s) = Return (r, e) →
  py_get "Data" r = Some MSG_RET →
  ∀ data' is_error',
    EventId data' = EventId data →
    let s' := state_of (_step data is_error s) in
    _step data' is_error' s'
    = (Raise (PluginServerException
                ("event id " +:+ pretty (EventId data) +:+ " not found")), s', []).
Proof.
  intros Ho Hd data' ie' Heq. simpl. rewrite <- Heq. apply step_unknown_event.
  rewrite Heq.
  destruct (_step data is_error s) as [[o s'] tr] eqn:Hex.
  unfold outcome_of, state_of in *; simpl in *. subst o.
  by eapply step_retires.
Qed.

(** X9: a resume of an event whose worker waits for a result hands it
    [(data, None)] for [step] and [(None, data)] for [step_error], a
    missing [Data] being [None]; it returns the next item of the worker
    and removes the event from the table exactly when that item is the
    sentinel. *)
Theorem step_forwards_payload
    (s : PluginServer) (data : step_data) (is_error : bool) (ch : nat)
    (k : pyval * pyval → handler) (item : pyval) (st : chan_state) :
  events s !! EventId data = Some ch →
  channels s !! ch = Some (Awaiting k) →
  let dd := default PNone (Data data) in
  let result := if is_error then (PNone, dd) else (dd, PNone) in
  _handler_event_func (k result) = Some (item, st) →
  _step data is_error s
  = (Return (PDict [ ("Data", item); ("EventId", PInt (EventId data)) ], PNone),
     set_events (if is_MSG_RET item then delete (EventId data) else id)
       (set_channels (<[ch := st]>) s),
     [Send ch result; Recv ch]).
Proof.
  intros He Hch dd result Hw. subst dd result.
  assert (ch < length (channels s))%nat as Hlt by (by eapply lookup_lt_Some).
  destruct s as [pl insts iid il ev0 eid el mp chs t]; simpl in *.
  unfold_methods. simpl. rewrite He. simpl.
  destruct is_error; simpl; rewrite Hch; simpl.
  all: rewrite list_lookup_insert_eq by done; simpl.
  all: rewrite Hw; simpl.
  all: destruct (is_MSG_RET item); simpl; unfold set_events, set_channels; simpl.
  all: rewrite list_insert_insert_eq; reflexivity.
Qed.

(** The decorator when the lock is free, as one equation. *)
Lemma locked_by_free {A} (lock_name : lock) (fn : M A) (s : PluginServer) (n : nat) :
  lock_value lock_name s = S n →
  let inner := fn (set_lock lock_name n s) in
  locked_by lock_name fn s
  = match outcome_of inner with
    | Block => (Block, state_of inner, Acquire lock_name :: effects_of inner)
    | o =>
        (o, set_lock lock_name (S (lock_value lock_name (state_of inner))) (state_of inner),
         Acquire lock_name :: effects_of inner ++ [Release lock_name])
    end.
Proof.
  intros Hl. simpl.
  unfold locked_by, acquire, release, try_except, bind, get, emit, modify, raise, ret.
  simpl. rewrite Hl. simpl.
  destruct (fn (set_lock lock_name n s)) as [[[a|e|] s1] t1];
    unfold outcome_of, state_of, effects_of; simpl; reflexivity.
Qed.

(** X10: a method wrapped by [locked_by] that finds the lock free ends
    as its body does.  When the body returns or raises, the wrapper
    releases the lock once and touches nothing else: the server is as the
    body left it but for the lock, one higher.  When the body blocks, the
    server is as the body left it, the lock still held. *)
Theorem locked_by_releases {A} (lock_name : lock) (fn : M A) (s : PluginServer) (n : nat) :
  lock_value lock_name s = S n →
  let inner := fn (set_lock lock_name n s) in
  let wrapped := locked_by lock_name fn s in
  outcome_of wrapped = outcome_of inner
  ∧ match outcome_of inner with
    | Block =>
        state_of wrapped = state_of inner
        ∧ effects_of wrapped = Acquire lock_name :: effects_of inner
    | _ =>
        state_of wrapped
        = set_lock lock_name (S (lock_value lock_name (state_of inner))) (state_of inner)
        ∧ lock_value lock_name (state_of wrapped)
          = S (lock_value lock_name (state_of inner))
        ∧ (∀ l, l ≠ lock_name →
             lock_value l (state_of wrapped) = lock_value l (state_of inner))
        ∧ instances (state_of wrapped) = instances (state_of inner)
        ∧ events (state_of wrapped) = events (state_of inner)
        ∧ effects_of wrapped
          = Acquire lock_name :: effects_of inner ++ [Release lock_name]
    end.
Proof.
  intros Hl. simpl. rewrite (locked_by_free lock_name fn s n Hl).
  destruct (fn (set_lock lock_name n s)) as [[[a|e|] s1] t1];
    unfold outcome_of, state_of, effects_of; simpl.
  3: done.
  all: split; [done|].
  all: destruct s1, lock_name; simpl; repeat split; try done.
  all: intros [] ?; done.
Qed.

(** X11: the lock is not reentrant: a method locked by a lock that calls
    a method locked by the same lock blocks before the inner body runs. *)
Theorem locked_by_not_reentrant {A} (lock_name : lock) (fn : M A) (s : PluginServer) :
  lock_value lock_name s = 1%nat →
  locked_by lock_name (locked_by lock_name fn) s
  = (Block, set_lock lock_name 0 s, [Acquire lock_name; Acquire lock_name]).
Proof.
  intros Hl.
  unfold locked_by, acquire, release, try_except, bind, get, emit, modify, raise, block.
  simpl. rewrite Hl. simpl.
  destruct s, lock_name; simpl in *; reflexivity.
Qed.

(** X12: a round of the sweeper that finds the lock free advances the
    clock by the ttl, removes the entries that have expired by then and
    keeps the others unchanged; it touches neither the registry, the
    continuation table, the channels, the counters nor the locks. *)
Theorem sweep_keeps_the_rest (ttl : Z) (s : PluginServer) (n : nat) :
  i_lock s = S n →
  let s' := state_of (sweep ttl s) in
  now s' = now s + Z.max 0 ttl
  ∧ (∀ k ins, instances s !! k = Some ins →
       instances s' !! k = if Instance.is_expired ttl (now s') ins then None else Some ins)
  ∧ (∀ k, instances s !! k = None → instances s' !! k = None)
  ∧ plugins s' = plugins s ∧ events s' = events s ∧ channels s' = channels s
  ∧ instance_id s' = instance_id s ∧ event_id s' = event_id s
  ∧ i_lock s' = i_lock s ∧ e_lock s' = e_lock s.
Proof.
  intros Hl. simpl. destruct (sweep_free ttl s n Hl) as (m' & tr & Heq & _ & Hm).
  rewrite Heq. unfold state_of. simpl.
  split; [done|]. split; [intros k ins Hk; by rewrite Hm, Hk|].
  split; [intros k Hk; by rewrite Hm, Hk|]. done.
Qed.

Section RunsX.
Context `{JsonDecoder}.

Lemma exec_restores_locks r s o s' tr :
  exec r s = (o, s', tr) → o ≠ Block →
  i_lock s' = i_lock s ∧ e_lock s' = e_lock s.
Proof.
  intros Hex Ho. destruct r.
  8: { destruct (exec_sweep_cases ttl s) as [[_ Heq]|(m' & tr' & Heq & _)];
       rewrite Heq in Hex; by simplify_eq. }
  all: unfold_methods; cbn in Hex.
  all: split_cases; try done.
  all: try (match goal with l : lock |- _ => destruct l end; simpl; done).
Qed.

(** X13: after a sequence of requests none of which blocked, both locks
    are as they were before it. *)
Theorem run_restores_locks (rs : list request) (s : PluginServer) :
  Forall (λ x, out x ≠ Block) (run rs s).1 →
  i_lock (run rs s).2 = i_lock s ∧ e_lock (run rs s).2 = e_lock s.
Proof.
  revert s. induction rs as [|r rs IH]; intros s Hall; simpl in *; [done|].
  destruct (exec r s) as [[o s1] tr] eqn:Hex.
  specialize (IH s1). destruct (run rs s1) as [log s2]. simpl in *.
  apply Forall_cons in Hall as [Ho Hall]. simpl in Ho.
  destruct (exec_restores_locks _ _ _ _ _ Hex Ho) as [Hi He].
  destruct (IH Hall) as [Hi2 He2]. split; congruence.
Qed.

(** What a request can do to the continuation table and the channels. *)
Lemma exec_events_shape r s o s' tr :
  exec r s = (o, s', tr) →
  (events s' = events s ∧ event_id s ≤ event_id s'
   ∧ (length (channels s) ≤ length (channels s'))%nat)
  ∨ (events s' = <[event_id s := length (channels s)]> (events s)
     ∧ event_id s' = event_id s + 1
     ∧ length (channels s') = S (length (channels s)))
  ∨ (∃ eid, events s' = delete eid (events s) ∧ event_id s' = event_id s
            ∧ length (channels s') = length (channels s)).
Proof.
  intros Hex. destruct r.
  8: { destruct (exec_sweep_cases ttl s) as [[_ Heq]|(m' & tr' & Heq & _)];
       rewrite Heq in Hex; simplify_eq; simpl; left; repeat split; (lia || done). }
  all: unfold_methods; cbn in Hex.
  all: split_cases.
  all: try (match goal with l : lock |- _ => destruct l end; simpl).
  all: rewrite ?length_insert, ?length_app; simpl.
  all: try (left; split; [done|]; split; lia).
  all: try (right; left; split; [done|]; split; lia).
  all: try (right; right; eexists; split; [done|]; split; lia).
Qed.

Lemma exec_continuations_wf r s o s' tr :
  exec r s = (o, s', tr) → continuations_wf s → continuations_wf s'.
Proof.
  intros Hex [Hb Hinj]. unfold continuations_wf.
  destruct (exec_events_shape _ _ _ _ _ Hex)
    as [(He & Hid & Hlen)|[(He & Hid & Hlen)|(eid0 & He & Hid & Hlen)]]; rewrite He.
  - split.
    + intros eid ch Hk. destruct (Hb _ _ Hk). split; lia.
    + done.
  - split.
    + intros eid ch. rewrite lookup_insert. case_decide.
      * intros [= <-]. split; lia.
      * intros Hk. destruct (Hb _ _ Hk). split; lia.
    + intros e1 e2 ch. rewrite !lookup_insert.
      repeat case_decide; intros Hk1 Hk2; simplify_eq; try done.
      * destruct (Hb _ _ Hk2). lia.
      * destruct (Hb _ _ Hk1). lia.
      * by eapply Hinj.
  - split.
    + intros eid ch. rewrite lookup_delete. case_decide; [done|].
      intros Hk. destruct (Hb _ _ Hk). split; lia.
    + intros e1 e2 ch. rewrite !lookup_delete.
      repeat case_decide; intros Hk1 Hk2; simplify_eq. by eapply Hinj.
Qed.

Lemma run_continuations_wf rs : ∀ s,
  continuations_wf s → continuations_wf (run rs s).2.
Proof.
  induction rs as [|r rs IH]; intros s Hwf; simpl; [done|].
  destruct (exec r s) as [[o s1] tr] eqn:Hex.
  specialize (IH s1). destruct (run rs s1) as [log s2]. simpl in *.
  apply IH. by eapply exec_continuations_wf.
Qed.

(** X14: in every state reached from [__init__], every instance id in
    the table is below the instance counter, every event id in the
    continuation table is below the event counter and bound to an existing
    channel, and no two event ids share a channel. *)
Theorem reachable_tables_wf
    (loaded : gmap string Mod.t) (mp : bool) (t0 : Z) (rs : list request) :
  let s := (run rs (__init__ loaded mp t0)).2 in
  ids_below_counter s ∧ continuations_wf s.
Proof.
  simpl. split.
  - apply run_ids_below_counter, init_ids_below_counter.
  - apply run_continuations_wf. split.
    + intros eid ch Hk. simpl in Hk. by rewrite lookup_empty in Hk.
    + intros e1 e2 ch Hk. simpl in Hk. by rewrite lookup_empty in Hk.
Qed.

Lemma same_definition_refl p : same_definition p p.
Proof. by repeat split. Qed.

Lemma same_definition_trans p q r :
  same_definition p q → same_definition q r → same_definition p r.
Proof.
  intros (?&?&?&?&?&?&?&?) (?&?&?&?&?&?&?&?). repeat split; congruence.
Qed.

Lemma same_registry_alter_start (m : gmap string Mod.t) t k name :
  option_Forall2 same_definition (m !! name)
    (alter (Mod.set_last_start_instance_time t) k m !! name).
Proof.
  rewrite lookup_alter. case_decide; subst; destruct (m !! name); simpl; constructor.
  all: by repeat split.
Qed.

Lemma same_registry_alter_close (m : gmap string Mod.t) t k name :
  option_Forall2 same_definition (m !! name)
    (alter (Mod.set_last_close_instance_time t) k m !! name).
Proof.
  rewrite lookup_alter. case_decide; subst; destruct (m !! name); simpl; constructor.
  all: by repeat split.
Qed.

Lemma same_registry_refl (m : gmap string Mod.t) name :
  option_Forall2 same_definition (m !! name) (m !! name).
Proof. destruct (m !! name); constructor. apply same_definition_refl. Qed.

Lemma exec_same_registry r s o s' tr name :
  exec r s = (o, s', tr) →
  option_Forall2 same_definition (plugins s !! name) (plugins s' !! name).
Proof.
  intros Hex. destruct r.
  8: { destruct (exec_sweep_cases ttl s) as [[_ Heq]|(m' & tr' & Heq & _)];
       rewrite Heq in Hex; simplify_eq; simpl; apply same_registry_refl. }
  all: unfold_methods; cbn in Hex.
  all: split_cases.
  all: try (match goal with l : lock |- _ => destruct l end; simpl).
  all: try apply same_registry_refl.
  all: try apply same_registry_alter_start.
  all: try apply same_registry_alter_close.
Qed.

(** X2: a [start_instance] that raises, for whatever reason, inserts no
    instance, consumes no id and releases the lock; in the registry it
    leaves every entry other than the named plugin's as it was, and of the
    named plugin's entry everything but the two stamps. *)
Theorem failed_start_consumes_no_id (s : PluginServer) (cfg : start_cfg) (e : exn) :
  outcome_of (start_instance cfg s) = Raise e →
  let s' := state_of (start_instance cfg s) in
  instances s' = instances s
  ∧ instance_id s' = instance_id s
  ∧ i_lock s' = i_lock s
  ∧ (∀ name, name ≠ Name cfg → plugins s' !! name = plugins s !! name)
  ∧ (∀ name, option_Forall2 same_definition (plugins s !! name) (plugins s' !! name)).
Proof.
  intros Ho. simpl.
  destruct (start_instance cfg s) as [[o s'] tr] eqn:Hex.
  pose proof (λ name, exec_same_registry (StartInstance cfg) s o s' tr name Hex) as Hreg.
  unfold outcome_of, state_of in *. simpl in *. subst o.
  repeat split; [| | | |by apply Hreg].
  all: destruct s as [pl ins iid il ev eid el mp chs t].
  all: unfold_methods; cbn in Hex; split_cases; try done.
  all: intros name Hne; by rewrite lookup_alter_ne.
Qed.

(** X15: no sequence of requests adds, removes or replaces a plugin
    definition: a name is registered after it exactly when it was before,
    with the same fields except the two last-instance timestamps. *)
Theorem registry_fixed_after_load (rs : list request) (s : PluginServer) (name : string) :
  option_Forall2 same_definition (plugins s !! name) (plugins (run rs s).2 !! name).
Proof.
  revert s. induction rs as [|r rs IH]; intros s; simpl.
  - apply same_registry_refl.
  - destruct (exec r s) as [[o s1] tr] eqn:Hex.
    specialize (IH s1). destruct (run rs s1) as [log s2]. simpl in *.
    pose proof (exec_same_registry _ _ _ _ _ name Hex) as Hsame.
    destruct Hsame as [p q Hpq|]; inversion IH as [q' r' Hqr|]; subst; constructor.
    by eapply same_definition_trans.
Qed.

End RunsX.

(** ** The status view *)

Lemma bind_return {A B} (m : M A) (f : A → M B) s a s1 t1 :
  m s = (Return a, s1, t1) →
  bind m f s = (let '(o, s2, t2) := f a s1 in (o, s2, t1 ++ t2)).
Proof. intros Hm. unfold bind. rewrite Hm. by destruct (f a s1) as [[o s2] t2]. Qed.

Lemma instance_status_present s iid ins :
  instances s !! iid = Some ins →
  instance_status iid s = (Return (instance_entry s iid, PNone), s, []).
Proof.
  intros Hk. unfold instance_status, instance_entry, bind, get, ret. by rewrite Hk.
Qed.

(** The walk of the instance table: its keys, each once, in increasing
    order. *)
Lemma instance_ids_elem s k : k ∈ instance_ids s ↔ is_Some (instances s !! k).
Proof.
  unfold instance_ids. rewrite merge_sort_Permutation.
  rewrite list_elem_of_fmap. split.
  - intros [[k' v] [-> Hkv]]. apply elem_of_map_to_list in Hkv. by eexists.
  - intros [v Hv]. exists (k, v). split; [done|]. by apply elem_of_map_to_list.
Qed.

Lemma instance_ids_NoDup s : NoDup (instance_ids s).
Proof.
  unfold instance_ids. rewrite merge_sort_Permutation. apply NoDup_fst_map_to_list.
Qed.

Lemma instance_ids_Sorted s : Sorted Z.le (instance_ids s).
Proof. unfold instance_ids. apply (Sorted_merge_sort Z.le). Qed.

Lemma instance_ids_length s : length (instance_ids s) = size (instances s).
Proof.
  unfold instance_ids. rewrite merge_sort_Permutation.
  by rewrite length_fmap, length_map_to_list.
Qed.

Lemma status_loop keys : ∀ s acc,
  (∀ k, k ∈ keys → is_Some (instances s !! k)) →
  for_fold keys acc (λ instances iid,
    let* r := instance_status iid in
    let '(i, err) := r in
    if truthy err then raise (PluginServerException (message_of err))
    else ret (instances ++ [i])) s
  = (Return (acc ++ (instance_entry s <$> keys)), s, []).
Proof.
  induction keys as [|k keys IH]; intros s acc Hin; simpl.
  - by rewrite app_nil_r.
  - destruct (Hin k) as [ins Hk]; [by left|].
    erewrite bind_return; last first.
    { erewrite bind_return by (by eapply instance_status_present). simpl. reflexivity. }
    rewrite IH by (intros k' Hk'; apply Hin; by right).
    simpl. by rewrite <- app_assoc.
Qed.

Lemma status_of_instances_spec s :
  status_of_instances s = (Return (all_instance_entries s), s, []).
Proof.
  unfold status_of_instances. erewrite bind_return by reflexivity.
  rewrite status_loop; [reflexivity|].
  intros k Hk. by apply instance_ids_elem.
Qed.

Lemma plugins_loop `{Os} names : ∀ s acc,
  (∀ n, n ∈ names → is_Some (plugins s !! n)) →
  for_fold names acc (λ plugin_status name,
        let* instances := status_of_instances in
        let* s1 := get in
        match plugins s1 !! name with
        | None => raise (KeyError name)
        | Some plugin =>
            ret (dict_set name
                   (PDict [ ("Name", PStr name);
                            ("Modtime", PTime (Mod.mtime plugin));
                            ("LoadTime", PTime (Mod.load_time plugin));
                            ("Instances", PList instances);
                            ("LastStartInstance", PTime (Mod.last_start_instance_time plugin));
                            ("LastCloseInstance", PTime (Mod.last_close_instance_time plugin)) ])
                   plugin_status)
        end) s
  = (Return (foldl (λ d n, dict_set n (plugin_entry s n) d) acc names), s, []).
Proof.
  induction names as [|n names IH]; intros s acc Hin; simpl; [done|].
  destruct (Hin n) as [p Hp]; [by left|].
  erewrite bind_return; last first.
  { erewrite bind_return by apply status_of_instances_spec.
    simpl. erewrite bind_return by reflexivity. simpl. rewrite Hp. simpl. reflexivity. }
  rewrite IH by (intros k' Hk'; apply Hin; by right).
  assert (plugin_entry s n
          = PDict [ ("Name", PStr n);
                    ("Modtime", PTime (Mod.mtime p));
                    ("LoadTime", PTime (Mod.load_time p));
                    ("Instances", PList (all_instance_entries s));
                    ("LastStartInstance", PTime (Mod.last_start_instance_time p));
                    ("LastCloseInstance", PTime (Mod.last_close_instance_time p)) ])
    as -> by (unfold plugin_entry; by rewrite Hp).
  reflexivity.
Qed.

Lemma assoc_dict_set k v d k' :
  assoc k' (dict_set k v d) = if String.eqb k' k then Some v else assoc k' d.
Proof.
  induction d as [|[k0 v0] d IH]; simpl.
  - done.
  - destruct (String.eqb k k0) eqn:Hk; simpl.
    + apply String.eqb_eq in Hk as ->. by destruct (String.eqb k' k0).
    + destruct (String.eqb k' k0) eqn:Hk0.
      * apply String.eqb_eq in Hk0 as ->.
        by rewrite String.eqb_sym, Hk.
      * done.
Qed.

Lemma assoc_plugins_fold (entry : string → pyval) names : ∀ acc k,
  assoc k (foldl (λ d n, dict_set n (entry n) d) acc names)
  = if decide (k ∈ names) then Some (entry k) else assoc k acc.
Proof.
  induction names as [|n names IH]; intros acc k; cbn [foldl].
  - by rewrite decide_False by apply not_elem_of_nil.
  - rewrite IH. rewrite assoc_dict_set.
    destruct (decide (k ∈ names)) as [Hin|Hnin].
    + by rewrite decide_True by (by right).
    + destruct (String.eqb k n) eqn:Hk.
      * apply String.eqb_eq in Hk as ->. by rewrite decide_True by left.
      * rewrite decide_False; [done|].
        intros [->|?]%elem_of_cons; [|done]. by rewrite String.eqb_refl in Hk.
Qed.

(** [get_status] when the instance table lock is free, as one equation. *)
Lemma get_status_free `{Os} (s : PluginServer) (n : nat) :
  i_lock s = S n →
  get_status s
  = (Return (PDict [ ("Pid", PInt getpid);
                     ("Plugins",
                       PDict (foldl (λ d n, dict_set n (plugin_entry s n) d) []
                                (map_to_list (plugins s)).*1)) ], PNone),
     s, [Acquire I_lock; Release I_lock]).
Proof.
  intros Hl. destruct s as [pl insts iid il ev eid el mp chs t]; simpl in *; subst.
  unfold get_status. rewrite (locked_by_free I_lock _ _ n) by done. simpl.
  erewrite bind_return by reflexivity.
  erewrite bind_return; last first.
  { apply plugins_loop. intros k [[k' v] [-> Hkv]]%list_elem_of_fmap.
    apply elem_of_map_to_list in Hkv. by eexists. }
  reflexivity.
Qed.

Lemma plugin_status_lookup (s : PluginServer) (name : string) :
  assoc name (foldl (λ d n, dict_set n (plugin_entry s n) d) []
                (map_to_list (plugins s)).*1)
  = match plugins s !! name with
    | Some _ => Some (plugin_entry s name)
    | None => None
    end.
Proof.
  rewrite assoc_plugins_fold. simpl.
  destruct (plugins s !! name) as [p|] eqn:Hp.
  - rewrite decide_True; [done|]. apply list_elem_of_fmap. exists (name, p).
    split; [done|]. by apply elem_of_map_to_list.
  - rewrite decide_False; [done|].
    intros [[k' v] [-> Hkv]]%list_elem_of_fmap.
    apply elem_of_map_to_list in Hkv. simpl in *. congruence.
Qed.

(** X16: [get_status] with the lock free returns the process id and one
    record per registered plugin, never raises, and leaves the server as it
    was; every plugin's record carries that plugin's load metadata and the
    same list of instances: the descriptor of every instance in the table,
    each once, in increasing order of instance id, which is the order the
    instances were started in. *)
Theorem get_status_is_read_only `{Os} (s : PluginServer) (n : nat) :
  i_lock s = S n →
  ∃ plugin_status,
    get_status s
    = (Return (PDict [ ("Pid", PInt getpid); ("Plugins", PDict plugin_status) ], PNone),
       s, [Acquire I_lock; Release I_lock])
    ∧ (∀ name,
        assoc name plugin_status
        = match plugins s !! name with
          | Some plugin =>
              Some (PDict [ ("Name", PStr name);
                            ("Modtime", PTime (Mod.mtime plugin));
                            ("LoadTime", PTime (Mod.load_time plugin));
                            ("Instances", PList (all_instance_entries s));
                            ("LastStartInstance",
                              PTime (Mod.last_start_instance_time plugin));
                            ("LastCloseInstance",
                              PTime (Mod.last_close_instance_time plugin)) ])
          | None => None
          end)
    ∧ ∃ ids,
        all_instance_entries s = instance_entry s <$> ids
        ∧ Sorted Z.le ids
        ∧ NoDup ids
        ∧ ∀ k, k ∈ ids ↔ is_Some (instances s !! k).
Proof.
  intros Hl. eexists. split; [by apply (get_status_free s n)|]. split.
  - intros name. rewrite plugin_status_lookup. unfold plugin_entry.
    by destruct (plugins s !! name).
  - exists (instance_ids s). split; [reflexivity|].
    split; [apply instance_ids_Sorted|]. split; [apply instance_ids_NoDup|].
    apply instance_ids_elem.
Qed.

(** X17: the [Instances] list [get_status] reports for a plugin is not
    filtered by plugin: it has one entry per instance in the table, and the
    descriptor of every instance is in it, whatever definition the
    instance belongs to. *)
Theorem get_status_instances_unfiltered `{Os}
    (s : PluginServer) (n : nat) (name : string) (plugin : Mod.t)
    (iid : Z) (ins : Instance.t) :
  i_lock s = S n →
  plugins s !! name = Some plugin →
  instances s !! iid = Some ins →
  ∃ status entry l,
    outcome_of (get_status s) = Return (status, PNone)
    ∧ (py_get "Plugins" status ≫= py_get name) = Some entry
    ∧ py_get "Instances" entry = Some (PList l)
    ∧ length l = size (instances s)
    ∧ PDict [ ("Name", PStr (Instance.name ins)); ("Id", PInt iid);
              ("Config", Instance.config ins);
              ("StartTime", PTime (Instance.start_time ins)) ] ∈ l.
Proof.
  intros Hl Hp Hi. rewrite (get_status_free s n Hl).
  eexists _, (plugin_entry s name), (all_instance_entries s).
  split; [reflexivity|]. split.
  { simpl. rewrite plugin_status_lookup, Hp. reflexivity. }
  split; [unfold plugin_entry; by rewrite Hp|]. split.
  - unfold all_instance_entries. by rewrite length_fmap, instance_ids_length.
  - unfold all_instance_entries. apply list_elem_of_fmap. exists iid. split.
    + unfold instance_entry. by rewrite Hi.
    + apply instance_ids_elem. by eexists.
Qed.

(** ** Loading plugins *)

Section LoadingX.
Context `{Os} `{PluginLoader}.

Lemma load_entry_lookup dir st p k :
  (load_entry dir st p).1 !! k
  = match Module_new (splitext p).1 (path_join dir p) with
    | inr m =>
        if bool_decide ((splitext p).2 ∈ exts) && bool_decide ((splitext p).1 = k)
        then Some m else st.1 !! k
    | inl _ => st.1 !! k
    end.
Proof.
  unfold load_entry. destruct (splitext p) as [n ext]. simpl.
  destruct (bool_decide (ext ∈ exts)); simpl.
  - destruct (Module_new n (path_join dir p)) as [ex|m]; simpl; [done|].
    case_bool_decide; subst.
    + apply lookup_insert_eq.
    + by apply lookup_insert_ne.
  - by destruct (Module_new n (path_join dir p)).
Qed.

(** The registry after the loop: an entry is what it was, or the module of
    a listed file that loaded. *)
Lemma load_loop_origin dir names : ∀ st k m,
  (foldl (load_entry dir) st names).1 !! k = Some m →
  st.1 !! k = Some m ∨ ∃ p, p ∈ names ∧ loads_as dir p k m.
Proof.
  induction names as [|p names IH]; intros st k m Hk; simpl in *; [by left|].
  destruct (IH _ _ _ Hk) as [Hst|(p' & Hin & Hl)].
  - rewrite load_entry_lookup in Hst.
    destruct (Module_new _ _) as [ex|m'] eqn:Hm; [by left|].
    case_bool_decide as He; simpl in Hst; [|by left].
    case_bool_decide as Hn; [|by left]. simplify_eq.
    right. exists p. split; [by left|]. done.
  - right. exists p'. split; [by right|done].
Qed.

(** A name no listed file loads under keeps its entry. *)
Lemma load_loop_frame dir names : ∀ st k,
  (∀ p m, p ∈ names → ¬ loads_as dir p k m) →
  (foldl (load_entry dir) st names).1 !! k = st.1 !! k.
Proof.
  induction names as [|p names IH]; intros st k Hno; simpl; [done|].
  rewrite IH by (intros p' m Hin; apply Hno; by right).
  rewrite load_entry_lookup.
  destruct (Module_new _ _) as [ex|m] eqn:Hm; [done|].
  case_bool_decide as He; simpl; [|done].
  case_bool_decide as Hk; [|done]. exfalso. apply (Hno p m); [by left|].
  split; [done|]. split; [done|]. subst k; exact Hm.
Qed.

(** A listed file that loads leaves its name registered. *)
Lemma load_loop_registers dir names : ∀ st p k m,
  p ∈ names → loads_as dir p k m →
  is_Some ((foldl (load_entry dir) st names).1 !! k).
Proof.
  induction names as [|p0 names IH] using rev_ind; intros st p k m Hin Hl;
    [by apply elem_of_nil in Hin|].
  rewrite foldl_app. simpl. rewrite load_entry_lookup.
  apply elem_of_app in Hin as [Hin|Hin%list_elem_of_singleton].
  - pose proof (IH st p k m Hin Hl) as Hsome.
    destruct (Module_new _ _); [done|]. by destruct (_ && _).
  - subst p0. destruct Hl as (Hn & He & Hm). rewrite Hn, Hm.
    rewrite !bool_decide_eq_true_2 by done. by eexists.
Qed.


Lemma load_loop_lines dir names : ∀ st,
  length (foldl (load_entry dir) st names).2
  = (length st.2 + length (filter (λ p, (splitext p).2 ∈ exts) names))%nat.
Proof.
  induction names as [|p names IH]; intros st; simpl; [lia|].
  rewrite IH. unfold load_entry. rewrite filter_cons.
  destruct (splitext p) as [n ext]. simpl.
  case_bool_decide as He.
  - rewrite decide_True by done.
    destruct (Module_new n (path_join dir p)); simpl; rewrite length_app; simpl; lia.
  - rewrite decide_False by done. lia.
Qed.

(** X18: with a plugin directory set and listed, [_load_plugins] never
    raises, whatever the loader does on a file: an entry of the registry
    afterwards is an entry from before or the module of a listed file with
    an extension of [exts] that loaded; every such file leaves its name
    registered; a name no such file loads under keeps what it had; and
    each file with an extension of [exts] is logged once. *)
Theorem load_failures_are_skipped
    (plugin_dir : option string) (dir : string) (names : list string)
    (plugins : gmap string Mod.t) :
  dir_set plugin_dir = Some dir →
  listdir dir = inr names →
  ∃ plugins' lines,
    _load_plugins plugin_dir plugins = inr (plugins', lines)
    ∧ (∀ k m, plugins' !! k = Some m →
         plugins !! k = Some m ∨ ∃ p, p ∈ names ∧ loads_as dir p k m)
    ∧ (∀ p k m, p ∈ names → loads_as dir p k m → is_Some (plugins' !! k))
    ∧ (∀ k, (∀ p m, p ∈ names → ¬ loads_as dir p k m) → plugins' !! k = plugins !! k)
    ∧ length lines = length (filter (λ p, (splitext p).2 ∈ exts) names).
Proof.
  intros Hd Hl. unfold _load_plugins. rewrite Hd, Hl.
  destruct (foldl (load_entry dir) (plugins, []) names) as [plugins' lines] eqn:Hf.
  exists plugins', lines. split; [done|].
  replace plugins' with (foldl (load_entry dir) (plugins, []) names).1 by (by rewrite Hf).
  replace lines with (foldl (load_entry dir) (plugins, []) names).2 by (by rewrite Hf).
  split; [intros k m Hk; by apply (load_loop_origin dir names (plugins, []))|].
  split; [intros p k m; apply load_loop_registers|].
  split; [intros k Hno; by apply (load_loop_frame dir names (plugins, []))|].
  by rewrite load_loop_lines.
Qed.

(** X19: [set_plugin_dir] on a path that does not exist returns the
    error pair and keeps the old directory; on a path that exists it
    returns ["ok"] and records it, after which [_load_plugins] passes its
    guard and lists that directory. *)
Theorem set_plugin_dir_then_load
    (dir : string) (plugin_dir : option string) (plugins : gmap string Mod.t) :
  path_exists "" = false →
  match set_plugin_dir dir plugin_dir with
  | ((PStr _, PNone), plugin_dir') =>
      path_exists dir = true ∧ plugin_dir' = Some dir
      ∧ _load_plugins plugin_dir' plugins
        = match listdir dir with
          | inl ex => inl ex
          | inr names => inr (foldl (load_entry dir) (plugins, []) names)
          end
  | ((result, err), plugin_dir') =>
      path_exists dir = false ∧ plugin_dir' = plugin_dir
      ∧ result = PNone ∧ err = PStr (dir +:+ " not exists")
  end.
Proof.
  intros Hempty. unfold set_plugin_dir.
  destruct (path_exists dir) eqn:Hex; simpl; [|done].
  split; [done|]. split; [done|].
  unfold _load_plugins, dir_set. destruct (String.eqb dir "") eqn:Hd; [|done].
  apply String.eqb_eq in Hd. subst. congruence.
Qed.

(** X20: the constructor fails only if listing the plugin directory
    fails: a plugin that does not load never aborts it, and the registry of
    the new server holds nothing but modules of listed files that loaded;
    without a plugin directory the registry is empty. *)
Theorem new_server_survives_load_errors
    (plugin_dir : option string) (multiprocess : bool) (t0 : Z) :
  match dir_set plugin_dir with
  | None => PluginServer_new plugin_dir multiprocess t0 = inr (__init__ ∅ multiprocess t0, [])
  | Some dir =>
      match listdir dir with
      | inl ex => PluginServer_new plugin_dir multiprocess t0 = inl ex
      | inr names =>
          ∃ loaded lines,
            PluginServer_new plugin_dir multiprocess t0
            = inr (__init__ loaded multiprocess t0, lines)
            ∧ (∀ k m, loaded !! k = Some m → ∃ p, p ∈ names ∧ loads_as dir p k m)
            ∧ (∀ p k m, p ∈ names → loads_as dir p k m → is_Some (loaded !! k))
      end
  end.
Proof.
  unfold PluginServer_new. destruct (dir_set plugin_dir) as [dir|] eqn:Hd; [|done].
  destruct (listdir dir) as [ex|names] eqn:Hl.
  - unfold _load_plugins. by rewrite Hd, Hl.
  - unfold _load_plugins. rewrite Hd, Hl.
    destruct (foldl (load_entry dir) (∅, []) names) as [loaded lines] eqn:Hf.
    exists loaded, lines. split; [done|].
    replace loaded with (foldl (load_entry dir) (∅, []) names).1 by (by rewrite Hf).
    split.
    + intros k m Hk.
      destruct (load_loop_origin dir names (∅, []) k m Hk) as [He|?]; [|done].
      simpl in He. by rewrite lookup_empty in He.
    + intros p k m. apply load_loop_registers.
Qed.

End LoadingX.

(** ** Sample inputs of the further properties *)

Lemma start_instance_then_status_witness :
  i_lock fresh_server = 1%nat
  ∧ plugins fresh_server !! "rate-limit" = Some rate_limit
  ∧ sample_decoder "{}" = Some (PDict [])
  ∧ Mod.cls rate_limit (PDict []) = inr sample_phases
  ∧ outcome_of (start_instance (H := sample_decoder)
                  {| Name := "rate-limit"; Config := "{}" |} fresh_server)
    = Return (PDict [ ("Name", PStr "rate-limit"); ("Id", PInt 0);
                      ("Config", PDict []); ("StartTime", PTime 0) ], PNone).
Proof.
  repeat (split; [reflexivity|]).
  destruct (start_instance_then_status (H := sample_decoder) fresh_server
              {| Name := "rate-limit"; Config := "{}" |} 0%nat rate_limit (PDict [])
              sample_phases eq_refl eq_refl eq_refl eq_refl) as [Hout _].
  exact Hout.
Defined.

Lemma failed_start_consumes_no_id_witness :
  outcome_of (start_instance (H := sample_decoder)
                {| Name := "rate-limit"; Config := "{" |} fresh_server)
  = Raise JSONDecodeError
  ∧ instance_id (state_of (start_instance (H := sample_decoder)
                             {| Name := "rate-limit"; Config := "{" |} fresh_server))
    = instance_id fresh_server.
Proof.
  split; [reflexivity|].
  destruct (failed_start_consumes_no_id (H := sample_decoder) fresh_server
              {| Name := "rate-limit"; Config := "{" |} JSONDecodeError eq_refl)
    as (_ & Hid & _).
  exact Hid.
Defined.


Lemma handle_event_unknown_instance_witness :
  e_lock fresh_server = 1%nat
  ∧ instances fresh_server !! 7 = None
  ∧ handle_event {| InstanceId := 7; EventName := "access" |} fresh_server
    = (Raise (PluginServerException "instance id 7 not found"), fresh_server,
       [Acquire E_lock; Release E_lock]).
Proof.
  split; [reflexivity|]. split; [reflexivity|].
  exact (handle_event_unknown_instance fresh_server
           {| InstanceId := 7; EventName := "access" |} 0%nat eq_refl eq_refl).
Defined.

Lemma handle_event_unknown_phase_witness :
  e_lock serving = 1%nat
  ∧ instances serving !! 0 = Some sample_instance
  ∧ Instance.cls sample_instance "nope" = None
  ∧ outcome_of (handle_event {| InstanceId := 0; EventName := "nope" |} serving)
    = Raise (AttributeError "nope")
  ∧ events (state_of (handle_event {| InstanceId := 0; EventName := "nope" |} serving)) !! 0
    = Some 0%nat.
Proof.
  repeat (split; [reflexivity|]).
  destruct (handle_event_unknown_phase serving {| InstanceId := 0; EventName := "nope" |}
              sample_instance 0%nat eq_refl eq_refl eq_refl) as (Ho & _ & He & _).
  exact He.
Defined.

Lemma raising_handler_wedges_begin_witness :
  e_lock serving = 1%nat
  ∧ instances serving !! 0 = Some sample_instance
  ∧ Instance.cls sample_instance "rewrite" = Some (HRaise (PluginError "boom"))
  ∧ outcome_of (handle_event {| InstanceId := 0; EventName := "rewrite" |} serving) = Block.
Proof.
  repeat (split; [reflexivity|]).
  destruct (raising_handler_wedges_begin (H := sample_decoder) serving
              {| InstanceId := 0; EventName := "rewrite" |} sample_instance
              (PluginError "boom") eq_refl eq_refl eq_refl) as (Ho & _).
  exact Ho.
Defined.

Lemma handle_event_first_item_witness :
  multiprocess serving = false
  ∧ e_lock serving = 1%nat
  ∧ instances serving !! 0 = Some sample_instance
  ∧ Instance.cls sample_instance "access" = Some log_then_header
  ∧ _handler_event_func log_then_header = Some (first_call, Awaiting then_header)
  ∧ outcome_of (handle_event {| InstanceId := 0; EventName := "access" |} serving)
    = Return (PDict [ ("Data", first_call); ("EventId", PInt 0) ], PNone).
Proof.
  repeat (split; [reflexivity|]).
  destruct (handle_event_first_item serving {| InstanceId := 0; EventName := "access" |}
              sample_instance 0%nat log_then_header first_call (Awaiting then_header)
              eq_refl eq_refl eq_refl eq_refl eq_refl) as (Ho & _).
  exact Ho.
Defined.

Lemma resume_after_retirement_witness :
  let s := (run (H := sample_decoder) [resume_0] in_flight).2 in
  let data := {| EventId := 0; Data := None |} in
  outcome_of (_step data false s)
  = Return (PDict [ ("Data", MSG_RET); ("EventId", PInt 0) ], PNone)
  ∧ _step data true (state_of (_step data false s))
    = (Raise (PluginServerException "event id 0 not found"),
       state_of (_step data false s), []).
Proof.
  intros s data.
  assert (outcome_of (_step data false s)
          = Return (PDict [ ("Data", MSG_RET); ("EventId", PInt 0) ], PNone)) as Ho
    by reflexivity.
  split; [exact Ho|].
  exact (resume_after_retirement s data false _ _ Ho eq_refl data true eq_refl).
Defined.

Lemma run_restores_locks_witness :
  let rs := [start_rate_limit; begin_access; resume_0; resume_0] in
  Forall (λ x, out x ≠ Block) (run (H := sample_decoder) rs fresh_server).1
  ∧ i_lock (run (H := sample_decoder) rs fresh_server).2 = i_lock fresh_server
  ∧ e_lock (run (H := sample_decoder) rs fresh_server).2 = e_lock fresh_server.
Proof.
  intros rs.
  assert (Forall (λ x, out x ≠ Block) (run (H := sample_decoder) rs fresh_server).1) as Hall.
  { vm_compute. repeat constructor; discriminate. }
  split; [exact Hall|].
  exact (run_restores_locks (H := sample_decoder) rs fresh_server Hall).
Defined.

Lemma locked_by_releases_witness :
  lock_value I_lock serving = 1%nat
  ∧ outcome_of (locked_by I_lock (instance_status 0) serving)
    = outcome_of (instance_status 0 (set_lock I_lock 0 serving))
  ∧ state_of (locked_by I_lock (instance_status 0) serving) = serving.
Proof.
  split; [reflexivity|].
  destruct (locked_by_releases I_lock (instance_status 0) serving 0%nat eq_refl)
    as [Ho Hrest].
  split; [exact Ho|]. exact (proj1 Hrest).
Defined.

Lemma locked_by_not_reentrant_witness :
  lock_value I_lock serving = 1%nat
  ∧ locked_by I_lock (locked_by I_lock (instance_status 0)) serving
    = (Block, set_lock I_lock 0 serving, [Acquire I_lock; Acquire I_lock]).
Proof.
  split; [reflexivity|].
  exact (locked_by_not_reentrant I_lock (instance_status 0) serving eq_refl).
Defined.

Lemma sweep_keeps_the_rest_witness :
  i_lock idle = 1%nat
  ∧ now (state_of (sweep 60 idle)) = now idle + Z.max 0 60
  ∧ events (state_of (sweep 60 idle)) = events idle.
Proof.
  split; [reflexivity|].
  destruct (sweep_keeps_the_rest 60 idle 0%nat eq_refl) as (Hn & _ & _ & _ & He & _).
  split; [exact Hn|exact He].
Defined.

Lemma step_forwards_payload_witness :
  let data := {| EventId := 0; Data := None |} in
  events in_flight !! EventId data = Some 0%nat
  ∧ channels in_flight !! 0%nat = Some (Awaiting then_header)
  ∧ _handler_event_func (then_header (PNone, PNone))
    = Some (PDict [("Method", PStr "kong.response.set_header")],
            Awaiting (λ _, HReturn))
  ∧ outcome_of (_step data false in_flight)
    = Return (PDict [ ("Data", PDict [("Method", PStr "kong.response.set_header")]);
                      ("EventId", PInt 0) ], PNone).
Proof.
  intros data. repeat (split; [reflexivity|]).
  rewrite (step_forwards_payload in_flight data false 0%nat then_header
             (PDict [("Method", PStr "kong.response.set_header")])
             (Awaiting (λ _, HReturn)) eq_refl eq_refl eq_refl).
  reflexivity.
Defined.

Lemma get_status_is_read_only_witness :
  i_lock serving = 1%nat
  ∧ ∃ plugin_status,
      get_status (H := sample_os) serving
      = (Return (PDict [ ("Pid", PInt 4242); ("Plugins", PDict plugin_status) ], PNone),
         serving, [Acquire I_lock; Release I_lock])
      ∧ ∃ ids, all_instance_entries serving = instance_entry serving <$> ids
               ∧ Sorted Z.le ids ∧ NoDup ids.
Proof.
  split; [reflexivity|].
  destruct (get_status_is_read_only (H := sample_os) serving 0%nat eq_refl)
    as (ps & Heq & _ & ids & Hall & Hsorted & Hnodup & _).
  exists ps. split; [exact Heq|]. exists ids. split; [exact Hall|]. split; assumption.
Defined.

Lemma get_status_instances_unfiltered_witness :
  i_lock serving = 1%nat
  ∧ plugins serving !! "rate-limit" = Some rate_limit
  ∧ instances serving !! 0 = Some sample_instance
  ∧ ∃ status entry l,
      outcome_of (get_status (H := sample_os) serving) = Return (status, PNone)
      ∧ (py_get "Plugins" status ≫= py_get "rate-limit") = Some entry
      ∧ py_get "Instances" entry = Some (PList l)
      ∧ length l = size (instances serving)
      ∧ PDict [ ("Name", PStr "rate-limit"); ("Id", PInt 0);
                ("Config", PDict []); ("StartTime", PTime 0) ] ∈ l.
Proof.
  repeat (split; [reflexivity|]).
  exact (get_status_instances_unfiltered (H := sample_os) serving 0%nat "rate-limit"
           rate_limit 0 sample_instance eq_refl eq_refl eq_refl).
Defined.

Lemma load_failures_are_skipped_witness :
  dir_set (Some "plugins") = Some "plugins"
  ∧ listdir (Os := sample_os) "plugins" = inr sample_listing
  ∧ ∃ plugins' lines,
      _load_plugins (H := sample_os) (H0 := sample_loader) (Some "plugins") ∅
      = inr (plugins', lines)
      ∧ length lines
        = length (filter (λ p, (splitext (Os := sample_os) p).2 ∈ exts) sample_listing).
Proof.
  split; [reflexivity|]. split; [reflexivity|].
  destruct (load_failures_are_skipped (H := sample_os) (H0 := sample_loader)
              (Some "plugins") "plugins" sample_listing ∅ eq_refl eq_refl)
    as (pl & lines & Heq & _ & _ & _ & Hlen).
  exists pl, lines. split; [exact Heq|exact Hlen].
Defined.

Lemma set_plugin_dir_then_load_witness :
  path_exists (Os := sample_os) "" = false
  ∧ set_plugin_dir (H := sample_os) "plugins" None = ((PStr "ok", PNone), Some "plugins")
  ∧ path_exists (Os := sample_os) "plugins" = true
  ∧ _load_plugins (H := sample_os) (H0 := sample_loader) (Some "plugins") ∅
    = inr (foldl (load_entry (H := sample_os) (H0 := sample_loader) "plugins")
             (∅, []) sample_listing).
Proof.
  split; [reflexivity|]. split; [reflexivity|].
  destruct (set_plugin_dir_then_load (H := sample_os) (H0 := sample_loader)
              "plugins" None ∅ eq_refl) as (Hex & _ & Hload).
  split; [exact Hex|exact Hload].
Defined.

Example sample_load :
  (λ r, match r with
        | inr (loaded, lines) => Some ((map_to_list loaded).*1, lines)
        | inl _ => None
        end)
    (_load_plugins (H := sample_os) (H0 := sample_loader) (Some "plugins") ∅)
  = Some ([ "rate-limit" ],
          [ DebugLoaded "rate-limit" "plugins/rate-limit.py";
            WarnErrorLoading "broken" (PluginError "invalid syntax");
            DebugLoaded "rate-limit" "plugins/rate-limit.so" ]).
Proof. reflexivity. Qed.
